(** * mongosync [utils]: a shallow embedding of [utils/utils.go]

    The development follows the source file top-down:

    - [GoStrings]: the functions of Go's [strings] package that [utils.go]
      calls ([HasPrefix], [HasSuffix], [TrimSuffix], [Contains], [SplitN]);
    - the BSON values the code inspects, with Go's dynamic type assertions;
    - the driver as an explicit state machine ([Driver]), and a small
      state-and-abort monad [M] that threads the destination and the trace
      of requests issued against it;
    - [CustSyncIndex], [CustInsertMany], [CustGetLatestOplogTimestamp],
      [CustReplayOplog] (with its closure [CustContainsNs]),
      [CustGetOplogNs], [CustSyncOplog] and [CustFilter];
    - [CustSyncCollection], [CustGetDbs], [CustGetColls],
      [CustStringSliceRemove] and [CustStringSliceHas];
    - the theorems, one block per property. *)

From Stdlib Require Import ZArith String Ascii List Lia.
From stdpp Require Import base option list gmap strings.

Open Scope string_scope.
Open Scope list_scope.

(** ** Go's [strings] package *)

Module GoStrings.

(** [strings.HasPrefix(s, prefix)]. *)
Definition HasPrefix (s prefix : string) : bool := String.prefix prefix s.

(** [strings.HasSuffix(s, suffix)]:
    [len(s) >= len(suffix) && s[len(s)-len(suffix):] == suffix]. *)
Definition HasSuffix (s suffix : string) : bool :=
  (String.length suffix <=? String.length s)%nat
  && String.eqb
       (substring (String.length s - String.length suffix)
                  (String.length suffix) s)
       suffix.

(** [strings.TrimSuffix(s, suffix)]. *)
Definition TrimSuffix (s suffix : string) : string :=
  if HasSuffix s suffix
  then substring 0 (String.length s - String.length suffix) s
  else s.

(** [strings.Index(s, substr)], with [None] for Go's [-1]. *)
Definition Index (s substr : string) : option nat := String.index 0 substr s.

(** [strings.Contains(s, substr)]: [Index(s, substr) >= 0]. *)
Definition Contains (s substr : string) : bool :=
  match Index s substr with Some _ => true | None => false end.

(** [s[m:]] *)
Definition slice_from (m : nat) (s : string) : string :=
  substring m (String.length s - m) s.

(** [strings.SplitN(s, sep, n)] for a nonempty [sep] and [n >= 0]: at most
    [n] pieces, the last one being the unsplit remainder. *)
Fixpoint SplitN (s sep : string) (n : nat) : list string :=
  match n with
  | O => []
  | S O => [s]
  | S (S _ as n') =>
      match Index s sep with
      | None => [s]
      | Some m =>
          substring 0 m s :: SplitN (slice_from (m + String.length sep) s) sep n'
      end
  end.

End GoStrings.
Import GoStrings.

(** ** Outcomes

    A Go call either returns, panics (a failed type assertion, an index out
    of range, a nil dereference), or ends the process through [log.Fatal]. *)

Inductive Res (A : Type) : Type :=
| Ok (a : A)
| Panic (msg : string)
| Fatal (msg : string).
Arguments Ok {A} a.
Arguments Panic {A} msg.
Arguments Fatal {A} msg.

Definition res_bind {A B} (r : Res A) (k : A → Res B) : Res B :=
  match r with
  | Ok a => k a
  | Panic m => Panic m
  | Fatal m => Fatal m
  end.
#[global] Instance Res_ret : MRet Res := λ A, @Ok A.
#[global] Instance Res_bind : MBind Res := λ A B k r, @res_bind A B r k.

Definition is_Ok {A} (r : Res A) : bool :=
  match r with Ok _ => true | _ => false end.

(** [l[i]] on a Go slice: a run-time panic when [i] is out of range. *)
Definition at_index {A} (l : list A) (i : nat) : Res A :=
  match l !! i with
  | Some x => Ok x
  | None => Panic "runtime error: index out of range"
  end.

(** ** [CustFilter] *)

Record NsMap : Type := mkNsMap {
  SrcDb : string;
  SrcColl : string;
  DstDb : string;
  DstColl : string
}.

(** The fields of the composite literal are evaluated in source order, so the
    first failing index expression is the one that panics. *)
Definition CustFilter (ns : string) (nsnsMap : gmap string string) : Res NsMap :=
  match nsnsMap !! ns with
  | Some dst =>
      srcDb ← at_index (SplitN ns "." 2) 0;
      srcColl ← at_index (SplitN ns "." 2) 1;
      dstDb ← at_index (SplitN dst "." 2) 0;
      dstColl ← at_index (SplitN dst "." 2) 1;
      Ok (mkNsMap srcDb srcColl dstDb dstColl)
  | None =>
      srcDb ← at_index (SplitN ns "." 2) 0;
      srcColl ← at_index (SplitN ns "." 2) 1;
      dstDb ← at_index (SplitN ns "." 2) 0;
      dstColl ← at_index (SplitN ns "." 2) 1;
      Ok (mkNsMap srcDb srcColl dstDb dstColl)
  end.

(** ** [CustContainsNs], the closure of [CustReplayOplog] *)

Fixpoint CustContainsNs (oplogns : string) (nsSlice : list string) : bool :=
  match nsSlice with
  | [] => false
  | value :: rest =>
      if String.eqb oplogns value then true
      else if HasPrefix value (TrimSuffix oplogns "$cmd") then true
      else CustContainsNs oplogns rest
  end.

(** ** BSON values as the driver decodes them

    [primitive.D] is an ordered document; [primitive.M] is a Go map, written
    here as the list of pairs inserted in order (a later pair overrides an
    earlier one with the same key, as [D.Map()] and the decoder do).  The nil
    interface and BSON null are both [BNull]. *)

Module primitive.
Record Timestamp : Type := mkTimestamp { T : Z; I : Z }.

(** [tp.Equal(tp2)] *)
Definition Equal (tp tp2 : Timestamp) : bool :=
  (T tp =? T tp2)%Z && (I tp =? I tp2)%Z.

(** The server's order on timestamps: seconds first, then the ordinal. *)
Definition lt (a b : Timestamp) : bool :=
  (T a <? T b)%Z || ((T a =? T b)%Z && (I a <? I b)%Z).
Definition gte (a b : Timestamp) : bool := negb (lt a b).
Definition lte (a b : Timestamp) : bool := negb (lt b a).
End primitive.

#[warnings="-register-all"]
Inductive bson : Type :=
| BNull
| BBool (b : bool)
| BInt32 (z : Z)
| BInt64 (z : Z)
| BDouble (bits : Z)
| BString (s : string)
| BObjectID (hex : string)
| BTimestamp (ts : primitive.Timestamp)
| BD (d : list (string * bson))
| BM (m : list (string * bson))
| BA (a : list bson).

(** [m[k]] with the comma-ok result: the last pair for [k] wins. *)
Fixpoint lookup_key (m : list (string * bson)) (k : string) : option bson :=
  match m with
  | [] => None
  | (k', v) :: rest =>
      match lookup_key rest k with
      | Some v' => Some v'
      | None => if String.eqb k' k then Some v else None
      end
  end.

(** [m[k]]: the zero value (nil) when the key is absent. *)
Definition index_key (m : list (string * bson)) (k : string) : bson :=
  default BNull (lookup_key m k).

Definition exists_key (m : list (string * bson)) (k : string) : bool :=
  match lookup_key m k with Some _ => true | None => false end.

(** Type assertions [v.(T)]: a panic on any other dynamic type. *)
Definition assert_D (v : bson) : Res (list (string * bson)) :=
  match v with BD d => Ok d | _ => Panic "interface conversion: not primitive.D" end.
Definition assert_M (v : bson) : Res (list (string * bson)) :=
  match v with BM m => Ok m | _ => Panic "interface conversion: not primitive.M" end.
Definition assert_A (v : bson) : Res (list bson) :=
  match v with BA a => Ok a | _ => Panic "interface conversion: not primitive.A" end.
Definition assert_string (v : bson) : Res string :=
  match v with BString s => Ok s | _ => Panic "interface conversion: not string" end.
Definition assert_bool (v : bson) : Res bool :=
  match v with BBool b => Ok b | _ => Panic "interface conversion: not bool" end.
Definition assert_int32 (v : bson) : Res Z :=
  match v with BInt32 z => Ok z | _ => Panic "interface conversion: not int32" end.
Definition assert_Timestamp (v : bson) : Res primitive.Timestamp :=
  match v with
  | BTimestamp t => Ok t
  | _ => Panic "interface conversion: not primitive.Timestamp"
  end.

(** [type OPLOG struct] *)
Module Oplog.
Record OPLOG : Type := mkOPLOG {
  TS : primitive.Timestamp;
  T : Z;
  H : Z;
  V : Z;
  OP : string;
  NS : string;
  O2 : bson;
  O : bson
}.
End Oplog.
Abbreviation OPLOG := Oplog.OPLOG.

(** ** The driver

    Option structs carry the fields [utils.go] sets; a pointer field that was
    never set is [None]. *)

Record Collection : Type := mkCollection { collDb : string; collName : string }.

Record InsertManyOptions : Type := mkInsertManyOptions {
  im_Ordered : option bool;
  im_BypassDocumentValidation : option bool
}.
Record InsertOneOptions : Type := mkInsertOneOptions {
  io_BypassDocumentValidation : option bool
}.
Record ReplaceOptions : Type := mkReplaceOptions {
  ro_BypassDocumentValidation : option bool;
  ro_Upsert : option bool
}.
Record UpdateOptions : Type := mkUpdateOptions {
  uo_BypassDocumentValidation : option bool;
  uo_Upsert : option bool
}.
Record IndexOptions : Type := mkIndexOptions {
  Background : option bool;
  ExpireAfterSeconds : option Z;
  Name : option string;
  Sparse : option bool;
  Unique : option bool;
  DefaultLanguage : option string;
  LanguageOverride : option string;
  Weights : option bson;
  PartialFilterExpression : option bson
}.
Record IndexModel : Type := mkIndexModel {
  Keys : bson;
  Options : option IndexOptions
}.

Inductive CursorType : Type := NonTailable | Tailable | TailableAwait.

(** Requests issued against the destination deployment. *)
Inductive Request : Type :=
| InsertMany (c : Collection) (docs : list bson) (o : InsertManyOptions)
| InsertOne (c : Collection) (doc : bson) (o : InsertOneOptions)
| ReplaceOne (c : Collection) (filter replacement : bson) (o : ReplaceOptions)
| UpdateOne (c : Collection) (filter update : bson) (o : UpdateOptions)
| DeleteOne (c : Collection) (filter : bson)
| CreateOne (c : Collection) (model : IndexModel)
| RunCommand (db : string) (cmd : bson).

(** Reads issued against the source deployment. *)
Inductive SrcRequest : Type :=
| ListIndexes (c : Collection)
| FindOne (c : Collection) (gte : primitive.Timestamp)
| Find (c : Collection) (gte : primitive.Timestamp)
       (lte : option primitive.Timestamp) (ct : CursorType) (noTimeout : bool)
| ReplSetGetStatus.

Inductive Event : Type :=
| Src (r : SrcRequest)
| Dst (r : Request).

(** The destination is a state machine: a request moves it to a new state and
    answers with the driver's [error] ([None] for [nil], otherwise the text of
    [err.Error()]). *)
Class Driver (St : Type) : Type := exec : Request → St → St * option string.

(** ** The execution monad: destination state and trace, with aborts *)

Record World (St : Type) : Type := mkWorld { dst : St; trace : list Event }.
Arguments mkWorld {St} dst trace.
Arguments dst {St} w.
Arguments trace {St} w.

Definition M (St A : Type) : Type := World St → Res A * World St.

Definition ret {St A} (a : A) : M St A := λ w, (Ok a, w).
Definition bind {St A B} (m : M St A) (k : A → M St B) : M St B :=
  λ w, match m w with
       | (Ok a, w') => k a w'
       | (Panic e, w') => (Panic e, w')
       | (Fatal e, w') => (Fatal e, w')
       end.
Definition lift {St A} (r : Res A) : M St A := λ w, (r, w).
Definition fatal {St A} (msg : string) : M St A := lift (Fatal msg).
Definition panic {St A} (msg : string) : M St A := lift (Panic msg).

#[global] Instance M_ret {St} : MRet (M St) := λ A, @ret St A.
#[global] Instance M_bind {St} : MBind (M St) := λ A B k m, @bind St A B m k.

(** A call on the destination: recorded, then answered by the driver. *)
Definition call {St} `{Driver St} (r : Request) : M St (option string) :=
  λ w, let '(s', err) := exec r (dst w) in
       (Ok err, mkWorld s' (trace w ++ [Dst r])).

(** A read on the source: recorded only, the answer comes from the caller. *)
Definition read {St} (r : SrcRequest) : M St unit :=
  λ w, (Ok tt, mkWorld (dst w) (trace w ++ [Src r])).

(** [for _, x := range l { acc = body(x, acc) }] *)
Fixpoint foldM {St A B} (body : A → B → M St B) (l : list A) (acc : B) : M St B :=
  match l with
  | [] => ret acc
  | x :: rest => acc' ← body x acc; foldM body rest acc'
  end.

(** [for _, x := range l { body(x) }] *)
Definition forM {St A} (body : A → M St unit) (l : list A) : M St unit :=
  foldM (λ x _, body x) l tt.

(** The requests a run issued against the destination. *)
Definition dst_requests (t : list Event) : list Request :=
  omap (λ e, match e with Dst r => Some r | Src _ => None end) t.

(** ** [int64] counters *)

Definition int64 (z : Z) : Z := ((z + 2 ^ 63) mod 2 ^ 64 - 2 ^ 63)%Z.
(** [x++] on an [int64] *)
Definition incr (z : Z) : Z := int64 (z + 1).

(** ** The source deployment

    The source is only read.  A stored oplog document reaches the code through
    [cur.Decode]: into a [bson.M] (the probe of the start timestamp, the
    staging writer) and into the [OPLOG] struct (the replay loop).  An [Entry]
    carries both views as the decoder delivers them; [typed] is [None] when
    decoding into the struct returns an error.  Connections are assumed to be
    established ([Connect] does not end the process). *)

Record Entry : Type := mkEntry {
  raw : list (string * bson);
  typed : option OPLOG
}.

Record Source : Type := mkSource {
  (** the index specifications [Indexes().List] enumerates, as [bson.M] *)
  indexes : Collection → list (list (string * bson));
  (** the documents of a collection, in natural order *)
  contents : Collection → list Entry;
  (** the error, if any, with which the source answers a read *)
  read_error : SrcRequest → option string;
  (** the reply to the [k]-th [replSetGetStatus] of a loop: an error or the
      decoded [bson.M] *)
  status : nat → string + list (string * bson)
}.

(** Server-side matching of [{ts: {$gte: lo}}] and [{ts: {$lte: hi}}]:
    only a timestamp compares with a timestamp. *)
Definition ts_gte (lo : primitive.Timestamp) (e : Entry) : bool :=
  match index_key (raw e) "ts" with
  | BTimestamp t => primitive.gte t lo
  | _ => false
  end.
Definition ts_lte (hi : primitive.Timestamp) (e : Entry) : bool :=
  match index_key (raw e) "ts" with
  | BTimestamp t => primitive.lte t hi
  | _ => false
  end.

(** [FindOne(filter)]: the first match in natural order. *)
Definition find_one (lo : primitive.Timestamp) (l : list Entry) : option Entry :=
  head (filter (λ e, ts_gte lo e = true) l).

(** What a cursor opened by [Find] delivers.  A tailing cursor blocks after
    the last stored match; the model covers the entries delivered so far. *)
Definition find_all (lo : primitive.Timestamp) (hi : option primitive.Timestamp)
    (l : list Entry) : list Entry :=
  filter (λ e, ts_gte lo e && match hi with Some h => ts_lte h e | None => true end = true) l.

(** [for k, x := range l { body(k, x) }] with the iteration number. *)
Fixpoint forMi {St A} (body : nat → A → M St unit) (k : nat) (l : list A) : M St unit :=
  match l with
  | [] => mret tt
  | x :: rest => body k x;; forMi body (S k) rest
  end.

(** ** [CustGetLatestOplogTimestamp]

    Returns the timestamp or the error; a malformed reply panics. *)
Fixpoint primary_optime (members : list bson) : Res (primitive.Timestamp + string) :=
  match members with
  | [] => Ok (inr "no oplog timestamp status")
  | member :: rest =>
      m ← assert_M member;
      match index_key m "stateStr" with
      | BString "PRIMARY" =>
          match index_key m "optime" with
          | BNull => Panic "invalid memory address or nil pointer dereference"
          | BM optime => ts ← assert_Timestamp (index_key optime "ts"); Ok (inl ts)
          | optime => ts ← assert_Timestamp optime; Ok (inl ts)
          end
      | _ => primary_optime rest
      end
  end.

Definition CustGetLatestOplogTimestamp (reply : string + list (string * bson))
    : Res (primitive.Timestamp + string) :=
  match reply with
  | inl err => Ok (inr err)
  | inr res => members ← assert_A (index_key res "members"); primary_optime members
  end.

(** ** [CustGetOplogNs]

    The deferred [recover] turns every panic of the body into the zero
    results [("", "")]. *)
Definition CustGetOplogNs_body (oplog : OPLOG) : Res (string * string) :=
  if negb (String.eqb (Oplog.NS oplog) "") then
    o ← assert_D (Oplog.O oplog);
    NS ← (if String.eqb (Oplog.OP oplog) "i" && negb (exists_key o "_id") then
            o' ← assert_D (Oplog.O oplog);
            ns ← assert_string (index_key o' "ns");
            Ok (SplitN ns "." 2)
          else Ok (SplitN (Oplog.NS oplog) "." 2));
    db ← at_index NS 0;
    coll ← at_index NS 1;
    Ok (db, coll)
  else Ok ("", "").

Definition CustGetOplogNs (oplog : OPLOG) : string * string :=
  match CustGetOplogNs_body oplog with
  | Ok p => p
  | _ => ("", "")
  end.

Definition local_oplog_rs : string := "local.oplog.rs".

Definition is_zero (ts : primitive.Timestamp) : bool :=
  (primitive.T ts =? 0)%Z && (primitive.I ts =? 0)%Z.

Section Engine.
Context {St : Type} `{!Driver St} (src : Source).

(** ** [CustSyncIndex] *)

(** [if value, exists := indexresult[k]; exists { indexopt.SetX(value.(T)) }] *)
Definition index_field {A} (indexresult : list (string * bson)) (k : string)
    (assert : bson → Res A) : Res (option A) :=
  match lookup_key indexresult k with
  | Some value => x ← assert value; Ok (Some x)
  | None => Ok None
  end.

Definition index_options (indexresult : list (string * bson)) : Res IndexOptions :=
  name ← index_field indexresult "name" assert_string;
  unique ← index_field indexresult "unique" assert_bool;
  sparse ← index_field indexresult "sparse" assert_bool;
  expire ← index_field indexresult "expireAfterSeconds" assert_int32;
  partial ← index_field indexresult "partialFilterExpression" Ok;
  weights ← index_field indexresult "weights" Ok;
  deflang ← index_field indexresult "default_language" assert_string;
  langover ← index_field indexresult "language_override" assert_string;
  Ok (mkIndexOptions None expire name sparse unique deflang langover weights partial).

Definition index_model (indexresult : list (string * bson)) (indexopt : IndexOptions)
    : IndexModel :=
  match lookup_key indexresult "key" with
  | Some value => mkIndexModel value (Some indexopt)
  | None => mkIndexModel BNull None
  end.

Definition CustSyncIndex_step (dstColl : Collection)
    (indexresult : list (string * bson)) : M St unit :=
  indexopt ← lift (index_options indexresult);
  err ← call (CreateOne dstColl (index_model indexresult indexopt));
  match err with
  | Some e =>
      match Name indexopt with
      | Some name =>
          fatal ("db[" +:+ collDb dstColl +:+ "].coll[" +:+ collName dstColl
                 +:+ "] index[" +:+ name +:+ "] create failed: " +:+ e)
      | None => panic "invalid memory address or nil pointer dereference"
      end
  | None => mret tt
  end.

Definition CustSyncIndex (srcDbName srcCollName dstDbName dstCollName : string)
    : M St unit :=
  let srcColl := mkCollection srcDbName srcCollName in
  read (ListIndexes srcColl);;
  match read_error src (ListIndexes srcColl) with
  | Some e => fatal ("list indexes failed: " +:+ e)
  | None =>
      forM (CustSyncIndex_step (mkCollection dstDbName dstCollName))
           (indexes src srcColl)
  end.

(** ** [CustInsertMany]

    [updateOverwrite] selects the fallback policy: [true] replaces an
    existing [_id], [false] skips it. *)

Definition insertManyErrHandler (coll : Collection) (updateOverwrite : bool)
    (doc : bson) (counters : Z * Z) : M St (Z * Z) :=
  let '(sucessNum, failNum) := counters in
  if updateOverwrite then
    d ← lift (assert_D doc);
    let filter := BM [("_id", index_key d "_id")] in
    err ← call (ReplaceOne coll filter doc (mkReplaceOptions (Some false) (Some true)));
    match err with
    | Some _ => mret (sucessNum, incr failNum)
    | None => mret (incr sucessNum, failNum)
    end
  else
    err ← call (InsertOne coll doc (mkInsertOneOptions (Some true)));
    match err with
    | Some e =>
        if Contains e "E11000 duplicate key error"
        then mret (incr sucessNum, failNum)
        else mret (sucessNum, incr failNum)
    | None => mret (incr sucessNum, failNum)
    end.

(** The fallback hands [docs] through a channel to 500 workers.  Every
    document is received by exactly one worker, which runs the handler on
    it: one call on the (thread-safe) collection and one counter update
    under the mutex.  [order] is the order in which the driver serves those
    calls, a rearrangement of [docs] chosen by the scheduler. *)
Definition CustInsertMany (coll : Collection) (docs : list bson)
    (updateOverwrite : bool) (order : list bson) : M St (Z * Z) :=
  let insertManyOpts := mkInsertManyOptions (Some true) (Some false) in
  let docsNum := int64 (Z.of_nat (length docs)) in
  err ← call (InsertMany coll docs insertManyOpts);
  match err with
  | Some _ => foldM (insertManyErrHandler coll updateOverwrite) order (0%Z, 0%Z)
  | None => mret (int64 docsNum, 0%Z)
  end.

(** ** [CustReplayOplog] *)

(** The [switch oplog.OP] of the loop body. *)
Definition apply_op (oplog : OPLOG) (nsStruct : NsMap) : M St unit :=
  let dstColl := mkCollection (DstDb nsStruct) (DstColl nsStruct) in
  let op := Oplog.OP oplog in
  if String.eqb op "i" then
    o ← lift (assert_D (Oplog.O oplog));
    if exists_key o "_id" then
      call (ReplaceOne dstColl (BM [("_id", index_key o "_id")]) (Oplog.O oplog)
              (mkReplaceOptions None (Some true)));;
      mret tt
    else
      name ← lift (assert_string (index_key o "name"));
      let indexopt :=
        mkIndexOptions (Some true) None (Some name) None None None None None None in
      call (CreateOne dstColl (mkIndexModel (index_key o "key") (Some indexopt)));;
      mret tt
  else if String.eqb op "u" then
    o ← lift (assert_D (Oplog.O oplog));
    if exists_key o "$set" then
      call (UpdateOne dstColl (Oplog.O2 oplog) (Oplog.O oplog)
              (mkUpdateOptions (Some false) (Some true)));;
      mret tt
    else
      call (ReplaceOne dstColl (Oplog.O2 oplog) (Oplog.O oplog)
              (mkReplaceOptions None (Some true)));;
      mret tt
  else if String.eqb op "d" then
    call (DeleteOne dstColl (Oplog.O oplog));; mret tt
  else if String.eqb op "c" then
    call (RunCommand (DstDb nsStruct) (Oplog.O oplog));; mret tt
  else if String.eqb op "n" then
    mret tt
  else
    mret tt.

(** One iteration of the replay loop on the [k]-th delivered entry. *)
Definition replay_step (srcOplogNamespace : string) (endTS : primitive.Timestamp)
    (nsSlice : list string) (nsnsMap : gmap string string)
    (k : nat) (e : Entry) : M St unit :=
  match typed e with
  | None => fatal "decode failed"
  | Some oplog =>
      (if String.eqb srcOplogNamespace local_oplog_rs && is_zero endTS then
         read ReplSetGetStatus;;
         lift (CustGetLatestOplogTimestamp (status src k));;
         mret tt
       else mret tt);;
      let '(dstDbName, dstCollName) := CustGetOplogNs oplog in
      let oplogns := dstDbName +:+ "." +:+ dstCollName in
      if CustContainsNs oplogns nsSlice then
        nsStruct ← lift (CustFilter oplogns nsnsMap);
        apply_op oplog nsStruct
      else mret tt
  end.

Definition CustReplayOplog (startTS endTS : primitive.Timestamp)
    (srcOplogNamespace : string) (nsSlice : list string)
    (nsnsMap : gmap string string) : M St unit :=
  let srcOplogNamespace :=
    if String.eqb srcOplogNamespace "" then local_oplog_rs else srcOplogNamespace in
  let srcOplogNsSlice := SplitN srcOplogNamespace "." 2 in
  if negb (length srcOplogNsSlice =? 2)%nat then
    fatal "srcOplogNamespace is malformed"
  else
    db ← lift (at_index srcOplogNsSlice 0);
    coll ← lift (at_index srcOplogNsSlice 1);
    let srcColl := mkCollection db coll in
    (* the probe of startTS *)
    read (FindOne srcColl startTS);;
    match read_error src (FindOne srcColl startTS),
          find_one startTS (contents src srcColl) with
    | Some e, _ => fatal ("startTS probe failed: " +:+ e)
    | None, None => fatal "startTS probe failed: mongo: no documents in result"
    | None, Some firstoplog =>
        ts ← lift (assert_Timestamp (index_key (raw firstoplog) "ts"));
        if negb (primitive.Equal ts startTS) then
          fatal ("the oplog entry at startTS has been overwritten in "
                 +:+ srcOplogNamespace +:+ "; stage the oplog and replay it")
        else
          let ct := if String.eqb srcOplogNamespace local_oplog_rs
                    then TailableAwait else NonTailable in
          let hi := if is_zero endTS then None else Some endTS in
          let q := Find srcColl startTS hi ct true in
          (* the main cursor *)
          read q;;
          match read_error src q with
          | Some e => fatal e
          | None =>
              forMi (replay_step srcOplogNamespace endTS nsSlice nsnsMap) 0
                    (find_all startTS hi (contents src srcColl))
          end
    end.

(** ** [CustSyncOplog] *)

Definition syncoplog_coll : Collection := mkCollection "syncoplog" "oplog.rs".

Definition sync_step (k : nat) (e : Entry) : M St unit :=
  let oplog := raw e in
  read ReplSetGetStatus;;
  r ← lift (CustGetLatestOplogTimestamp (status src k));
  match r with
  | inr _ => mret tt
  | inl currentTS =>
      ts ← lift (assert_Timestamp (index_key oplog "ts"));
      mret tt
  end;;
  err ← call (InsertOne syncoplog_coll (BM oplog) (mkInsertOneOptions (Some false)));
  match err with
  | Some e => fatal ("syncoplog insert failed: " +:+ e)
  | None => mret tt
  end.

Definition CustSyncOplog (startTS : primitive.Timestamp) : M St unit :=
  let srcColl := mkCollection "local" "oplog.rs" in
  read (FindOne srcColl startTS);;
  match read_error src (FindOne srcColl startTS),
        find_one startTS (contents src srcColl) with
  | Some e, _ => fatal ("startTS probe failed: " +:+ e)
  | None, None => fatal "startTS probe failed: mongo: no documents in result"
  | None, Some firstoplog =>
      ts ← lift (assert_Timestamp (index_key (raw firstoplog) "ts"));
      if negb (primitive.Equal ts startTS) then
        fatal "the oplog entry at startTS is gone; syncoplog stops"
      else
        let q := Find srcColl startTS None TailableAwait true in
        read q;;
        match read_error src q with
        | Some e => fatal e
        | None => forMi sync_step 0 (find_all startTS None (contents src srcColl))
        end
  end.

(** A run from a destination state, with an empty trace. *)
Definition run {A} (m : M St A) (s : St) : Res A * World St := m (mkWorld s []).

End Engine.

(** ** [CustSyncCollection]

    The snapshot cursor is a parameter: [cursor] is the error of [Find] or
    the items [cur.Decode] delivers, each a decode error or a document.
    [sched] gives, for a batch, the order in which the fallback of
    [CustInsertMany] serves it.  The result is the count the final line
    prints. *)

Section Snapshot.
Context {St : Type} `{!Driver St} (src : Source).

(** [sucessNum, failNum := CustInsertMany(...)] and the test that follows. *)
Definition flush_batch (dstColl : Collection) (updateOverwrite : bool)
    (sched : list bson → list bson) (docs : list bson) (insertedNum : Z) : M St Z :=
  counters ← CustInsertMany dstColl docs updateOverwrite (sched docs);
  if negb (counters.2 =? 0)%Z then fatal "insert data err"
  else mret (int64 (insertedNum + counters.1)).

(** The loop body; the state is [(docNum, docs, insertedNum)]. *)
Definition copy_step (dstColl : Collection) (updateOverwrite : bool)
    (sched : list bson → list bson) (item : string + bson)
    (st : Z * list bson * Z) : M St (Z * list bson * Z) :=
  let '(docNum, docs, insertedNum) := st in
  match item with
  | inl e => fatal e
  | inr doc =>
      let docNum := incr docNum in
      let docs := docs ++ [doc] in
      if (Z.rem docNum 10000 =? 0)%Z then
        insertedNum ← flush_batch dstColl updateOverwrite sched docs insertedNum;
        mret (docNum, [], insertedNum)
      else mret (docNum, docs, insertedNum)
  end.

Definition CustSyncCollection (srcDbName srcCollName dstDbName dstCollName : string)
    (updateOverwrite noIndex : bool)
    (cursor : string + list (string + bson)) (sched : list bson → list bson)
    : M St Z :=
  (if negb noIndex
   then CustSyncIndex src srcDbName srcCollName dstDbName dstCollName
   else mret tt);;
  let dstColl := mkCollection dstDbName dstCollName in
  match cursor with
  | inl _ =>
      (* CheckErr only logs; the nil cursor is dereferenced by cur.Next *)
      panic "invalid memory address or nil pointer dereference"
  | inr items =>
      st ← foldM (copy_step dstColl updateOverwrite sched) items (0%Z, [], 0%Z);
      let '(_, docs, insertedNum) := st in
      if (0 <? length docs)%nat
      then flush_batch dstColl updateOverwrite sched docs insertedNum
      else mret insertedNum
  end.

End Snapshot.

(** ** [CustGetDbs]

    [listing] is the answer of [ListDatabaseNames].  The loop compacts the
    slice in place: [dbs[i] = db] overwrites the array it is ranging over. *)

Definition CustGetDbs_step (st : list string * nat) (k : nat) : list string * nat :=
  let '(dbs, i) := st in
  match dbs !! k with
  | Some db =>
      if negb (String.eqb db "local") && negb (String.eqb db "admin")
      then (<[i:=db]> dbs, S i)
      else (dbs, i)
  | None => (dbs, i)
  end.

Definition CustGetDbs (listing : string + list string) : Res (list string) :=
  match listing with
  | inl e => Fatal ("list databases failed: " +:+ e)
  | inr dbs =>
      let '(dbs', i) := foldl CustGetDbs_step (dbs, 0) (seq 0 (length dbs)) in
      Ok (take i dbs')
  end.

(** ** [CustGetColls]

    [listing] is the error of [ListCollections] or the documents its cursor
    delivers, decoded as [bson.M]. *)



(** ** [CustStringSliceRemove], [CustStringSliceHas] *)

(** The [range] loop up to its [break]: the index of the first match. *)
Fixpoint first_index (slice : list string) (element : string) : option nat :=
  match slice with
  | [] => None
  | value :: rest =>
      if String.eqb value element then Some 0
      else S <$> first_index rest element
  end.

(** [append(backing[:n], tail...)] when the capacity suffices: [tail] is
    copied into the array from position [n] on, the rest is left as it was. *)
Definition append_in_place {A} (backing : list A) (n : nat) (tail : list A) : list A :=
  take n backing ++ tail ++ drop (n + length tail) backing.

(** The result is the returned slice together with what the argument slice
    holds after the call: both share one array. *)
Definition CustStringSliceRemove (slice : list string) (element : string)
    : list string * list string :=
  match first_index slice element with
  | Some index =>
      let tail := drop (S index) slice in
      let backing := append_in_place slice index tail in
      (take (index + length tail) backing, backing)
  | None => (slice, slice)
  end.

Fixpoint CustStringSliceHas (slice : list string) (element : string) : bool :=
  match slice with
  | [] => false
  | value :: rest =>
      if String.eqb element value then true else CustStringSliceHas rest element
  end.

(** ** Vocabulary of the statements *)

(** The answers of the destination to a sequence of requests served in order,
    and the state it ends in. *)
Fixpoint serve {St} `{!Driver St} (rs : list Request) (s : St)
    : St * list (option string) :=
  match rs with
  | [] => (s, [])
  | r :: rest =>
      let '(s', a) := exec r s in
      let '(s'', answers) := serve rest s' in
      (s'', a :: answers)
  end.

(** The unique-key violation, as the driver words it. *)
Definition is_duplicate_key (a : option string) : bool :=
  match a with
  | Some e => Contains e "E11000 duplicate key error"
  | None => false
  end.

Definition is_nil (a : option string) : bool :=
  match a with Some _ => false | None => true end.

Fixpoint count_if {A} (f : A → bool) (l : list A) : nat :=
  match l with
  | [] => 0
  | x :: rest => (if f x then 1 else 0) + count_if f rest
  end.

(** A validator that requires a [name] field, and a document without one. *)
Definition requires_name (doc : bson) : bool :=
  match doc with BD d => exists_key d "name" | _ => false end.
Definition nameless : bson := BD [("_id", BInt32 1)].

(** The destination state and the requests issued against it are the same
    before and after [m], however [m] ends. *)
Definition reads_only {St A} (m : M St A) : Prop :=
  ∀ w, dst (m w).2 = dst w
       ∧ dst_requests (trace (m w).2) = dst_requests (trace w).


(** Sample oplog entries: both decoded views of one stored document. *)
Definition oplog_entry (ts : primitive.Timestamp) (op ns : string) (o2 o : bson)
    : Entry :=
  mkEntry [("ts", BTimestamp ts); ("t", BInt64 7); ("h", BInt64 0);
           ("v", BInt32 2); ("op", BString op); ("ns", BString ns);
           ("o2", o2); ("o", o)]
          (Some (Oplog.mkOPLOG ts 7 0 2 op ns o2 o)).

(** A source holding [l] in the collection [db.coll] and nothing else. *)
Definition source_with (db coll : string) (l : list Entry) : Source :=
  mkSource (λ _, [])
           (λ c, if String.eqb (collDb c) db && String.eqb (collName c) coll
                 then l else [])
           (λ _, None)
           (λ _, inl "not running with --replSet").

(** A source whose collection [db.coll] has the index specifications [l]. *)
Definition source_with_indexes (db coll : string) (l : list (list (string * bson)))
    : Source :=
  mkSource (λ c, if String.eqb (collDb c) db && String.eqb (collName c) coll
                 then l else [])
           (λ _, [])
           (λ _, None)
           (λ _, inl "not running with --replSet").

(** The batches handed to [InsertMany], in order. *)
Definition bulk_batches (t : list Event) : list (list bson) :=
  omap (λ e, match e with Dst (InsertMany _ docs _) => Some docs | _ => None end) t.

(** The documents among the items of a snapshot cursor. *)
Definition decoded (items : list (string + bson)) : list bson :=
  omap (λ i, match i with inr doc => Some doc | inl _ => None end) items.

(** The request with which the index cloner recreates a specification. *)
Definition clone_request (dstColl : Collection) (indexresult : list (string * bson))
    : option Request :=
  match index_options indexresult with
  | Ok indexopt => Some (CreateOne dstColl (index_model indexresult indexopt))
  | _ => None
  end.

(** The request of the fallback under the replace policy. *)
Definition replace_request (coll : Collection) (d : list (string * bson)) : Request :=
  ReplaceOne coll (BM [("_id", index_key d "_id")]) (BD d)
    (mkReplaceOptions (Some false) (Some true)).

(** What the dispatch of the replay allows: the request an entry may cause. *)
Definition dispatched (oplog : OPLOG) (r : Request) : Prop :=
  match r with
  | ReplaceOne _ filter replacement o =>
      replacement = Oplog.O oplog ∧ o = mkReplaceOptions None (Some true)
      ∧ ∃ d, Oplog.O oplog = BD d
             ∧ ((Oplog.OP oplog = "i" ∧ exists_key d "_id" = true
                 ∧ filter = BM [("_id", index_key d "_id")])
                ∨ (Oplog.OP oplog = "u" ∧ exists_key d "$set" = false
                   ∧ filter = Oplog.O2 oplog))
  | UpdateOne _ filter update o =>
      Oplog.OP oplog = "u" ∧ filter = Oplog.O2 oplog ∧ update = Oplog.O oplog
      ∧ o = mkUpdateOptions (Some false) (Some true)
      ∧ ∃ d, Oplog.O oplog = BD d ∧ exists_key d "$set" = true
  | DeleteOne _ filter => Oplog.OP oplog = "d" ∧ filter = Oplog.O oplog
  | CreateOne _ model =>
      Oplog.OP oplog = "i"
      ∧ ∃ d name, Oplog.O oplog = BD d ∧ exists_key d "_id" = false
                  ∧ index_key d "name" = BString name
                  ∧ model = mkIndexModel (index_key d "key")
                              (Some (mkIndexOptions (Some true) None (Some name)
                                       None None None None None None))
  | RunCommand _ cmd => Oplog.OP oplog = "c" ∧ cmd = Oplog.O oplog
  | InsertMany _ _ _ | InsertOne _ _ _ => False
  end.

(** The namespace a request is addressed to; a command has a database only. *)
Definition target (r : Request) : string * option string :=
  match r with
  | InsertMany c _ _ | InsertOne c _ _ | ReplaceOne c _ _ _ | UpdateOne c _ _ _
  | DeleteOne c _ | CreateOne c _ => (collDb c, Some (collName c))
  | RunCommand db _ => (db, None)
  end.

(** The databases [CustGetDbs] keeps. *)
Definition user_db (db : string) : Prop := db ≠ "local" ∧ db ≠ "admin".

(** A member document that reports the state [PRIMARY]. *)
Definition is_PRIMARY (member : list (string * bson)) : bool :=
  match index_key member "stateStr" with
  | BString s => String.eqb s "PRIMARY"
  | _ => false
  end.

(** The namespace the replay loop computes for an entry and hands to
    [CustContainsNs] and [CustFilter]. *)
Definition effective_ns (oplog : OPLOG) : string :=
  (CustGetOplogNs oplog).1 +:+ "." +:+ (CustGetOplogNs oplog).2.

(** Two computations, each on its own destination, that end the same way and
    leave the same trace whenever they start from the same trace. *)
Definition same_requests {St1 St2 A} (m1 : M St1 A) (m2 : M St2 A) : Prop :=
  ∀ w1 w2, trace w1 = trace w2 →
           (m1 w1).1 = (m2 w2).1 ∧ trace (m1 w1).2 = trace (m2 w2).2.

(** The upper bound of the cursor of a replay. *)
Definition upper_bound (endTS : primitive.Timestamp) : option primitive.Timestamp :=
  if is_zero endTS then None else Some endTS.

(** A computation that hands no batch to [InsertMany]. *)
Definition keeps_batches {St A} (m : M St A) : Prop :=
  ∀ w, bulk_batches (trace (m w).2) = bulk_batches (trace w).

(** A computation all of whose events satisfy [P]. *)
Definition emits {St A} (P : Event → Prop) (m : M St A) : Prop :=
  ∀ w, ∃ t, trace (m w).2 = trace w ++ t ∧ Forall P t.


(** ** Two destinations to run the code against *)

(** A scripted destination answers the [i]-th request with the [i]-th error of
    its script, and with [nil] once the script is exhausted. *)
Definition Script : Type := list (option string).

#[global] Instance scripted : Driver Script :=
  λ _ s, match s with
         | [] => ([], None)
         | err :: s' => (s', err)
         end.

(** A destination that enforces a validator on its one collection: an insert
    is refused when the document fails the validator, unless the request
    bypasses document validation.  An ordered [InsertMany] stops at the first
    refused document. *)
Record Validated : Type := mkValidated {
  validator : bson → bool;
  stored : list bson
}.

Definition validated_insert (bypass : option bool) (doc : bson) (s : Validated)
    : Validated * option string :=
  if validator s doc || bool_decide (bypass = Some true)
  then (mkValidated (validator s) (stored s ++ [doc]), None)
  else (s, Some "Document failed validation").

Fixpoint validated_insert_many (bypass : option bool) (docs : list bson)
    (s : Validated) : Validated * option string :=
  match docs with
  | [] => (s, None)
  | doc :: rest =>
      match validated_insert bypass doc s with
      | (s', None) => validated_insert_many bypass rest s'
      | (s', Some e) => (s', Some e)
      end
  end.

#[global] Instance validated : Driver Validated :=
  λ r s, match r with
         | InsertMany _ docs o =>
             validated_insert_many (im_BypassDocumentValidation o) docs s
         | InsertOne _ doc o =>
             validated_insert (io_BypassDocumentValidation o) doc s
         | _ => (s, None)
         end.

(** * Properties *)

(** ** Unit checks of the embedding *)

Example SplitN_first_dot : SplitN "a.b.c" "." 2 = ["a"; "b.c"].
Proof. reflexivity. Qed.
Example SplitN_no_dot : SplitN "abc" "." 2 = ["abc"].
Proof. reflexivity. Qed.
Example SplitN_empty : SplitN "" "." 2 = [""].
Proof. reflexivity. Qed.
Example SplitN_only_dot : SplitN "." "." 2 = [""; ""].
Proof. reflexivity. Qed.
Example TrimSuffix_cmd : TrimSuffix "db.$cmd" "$cmd" = "db.".
Proof. reflexivity. Qed.
Example TrimSuffix_other : TrimSuffix "db.coll" "$cmd" = "db.coll".
Proof. reflexivity. Qed.
Example CustContainsNs_cmd : CustContainsNs "A.$cmd" ["B.x"; "A.y"] = true.
Proof. reflexivity. Qed.
Example CustContainsNs_other_db : CustContainsNs "C.$cmd" ["B.x"; "A.y"] = false.
Proof. reflexivity. Qed.
Example CustContainsNs_exact : CustContainsNs "A.y" ["B.x"; "A.y"] = true.
Proof. reflexivity. Qed.
Example CustContainsNs_absent : CustContainsNs "A.c" ["B.x"; "A.y"] = false.
Proof. reflexivity. Qed.

(** An index build is addressed to the namespace named in its payload. *)
Example CustGetOplogNs_index_build :
  CustGetOplogNs
    (Oplog.mkOPLOG (primitive.mkTimestamp 50 1) 7 0 2 "i" "d.system.indexes" BNull
       (BD [("key", BD [("x", BInt32 1)]); ("name", BString "x_1");
            ("ns", BString "d.c")]))
  = ("d", "c").
Proof. reflexivity. Qed.

(** A panic of the body is recovered into the zero results. *)
Example CustGetOplogNs_recovers :
  CustGetOplogNs
    (Oplog.mkOPLOG (primitive.mkTimestamp 50 1) 7 0 2 "u" "nodot" BNull (BD []))
  = ("", "").
Proof. reflexivity. Qed.

Example CustGetLatestOplogTimestamp_primary :
  CustGetLatestOplogTimestamp
    (inr [("members",
           BA [BM [("stateStr", BString "SECONDARY")];
               BM [("stateStr", BString "PRIMARY");
                   ("optime", BM [("ts", BTimestamp (primitive.mkTimestamp 9 3));
                                  ("t", BInt64 7)])]])])
  = Ok (inl (primitive.mkTimestamp 9 3)).
Proof. reflexivity. Qed.

(** An insert followed by an update of the same document, replayed from a
    staged copy of the log. *)
Example replay_insert_then_update :
  let src :=
    source_with "syncoplog" "oplog.rs"
      [oplog_entry (primitive.mkTimestamp 100 1) "i" "d.c" BNull
         (BD [("_id", BInt32 1); ("v", BString "a")]);
       oplog_entry (primitive.mkTimestamp 101 1) "u" "d.c" (BD [("_id", BInt32 1)])
         (BD [("$set", BD [("v", BString "b")])])] in
  let r := run (St:=Script)
             (CustReplayOplog src (primitive.mkTimestamp 100 1)
                (primitive.mkTimestamp 0 0) "syncoplog.oplog.rs" ["d.c"] ∅) [] in
  r.1 = Ok tt
  ∧ dst_requests (trace r.2)
    = [ReplaceOne (mkCollection "d" "c") (BM [("_id", BInt32 1)])
         (BD [("_id", BInt32 1); ("v", BString "a")])
         (mkReplaceOptions None (Some true));
       UpdateOne (mkCollection "d" "c") (BD [("_id", BInt32 1)])
         (BD [("$set", BD [("v", BString "b")])])
         (mkUpdateOptions (Some false) (Some true))].
Proof. split; reflexivity. Qed.

(** An index build creates the index on the payload's namespace, mapped. *)
Example replay_index_build :
  let src :=
    source_with "syncoplog" "oplog.rs"
      [oplog_entry (primitive.mkTimestamp 50 1) "i" "d.system.indexes" BNull
         (BD [("key", BD [("x", BInt32 1)]); ("name", BString "x_1");
              ("ns", BString "d.c")])] in
  dst_requests
    (trace (run (St:=Script)
              (CustReplayOplog src (primitive.mkTimestamp 50 1)
                 (primitive.mkTimestamp 0 0) "syncoplog.oplog.rs" ["d.c"]
                 {[ "d.c" := "e.f" ]}) []).2)
  = [CreateOne (mkCollection "e" "f")
       (mkIndexModel (BD [("x", BInt32 1)])
          (Some (mkIndexOptions (Some true) None (Some "x_1") None None
                   None None None None)))].
Proof. reflexivity. Qed.

(** ** Splitting at the first dot *)

Section SplitDot.

Lemma prefix_empty s : String.prefix "" s = true.
Proof. by destruct s. Qed.

Lemma Index_dot_cons c s :
  Index (String c s) "." =
  if Ascii.eqb c "." then Some 0 else S <$> Index s ".".
Proof.
  unfold Index. cbn [index String.prefix].
  destruct (ascii_dec "." c) as [<-|Hne].
  - by rewrite prefix_empty.
  - destruct (Ascii.eqb_spec c "."); [congruence|].
    by destruct (index 0 "." s).
Qed.

Lemma Contains_dot_cons c s :
  Contains (String c s) "." = Ascii.eqb c "." || Contains s ".".
Proof.
  unfold Contains. rewrite Index_dot_cons.
  destruct (Ascii.eqb c "."); [done|]. by destruct (Index s ".").
Qed.

Lemma append_nil_l (s : string) : "" +:+ s = s.
Proof. reflexivity. Qed.

Lemma append_cons c (a s : string) : String c a +:+ s = String c (a +:+ s).
Proof. reflexivity. Qed.

Lemma Index_dot_app a b :
  Contains a "." = false → Index (a +:+ "." +:+ b) "." = Some (String.length a).
Proof.
  induction a as [|c a IH]; intros Hno.
  - by rewrite append_nil_l, append_cons, Index_dot_cons.
  - rewrite Contains_dot_cons in Hno. apply orb_false_iff in Hno as [Hc Ha].
    rewrite append_cons, Index_dot_cons, Hc, (IH Ha). done.
Qed.

Lemma Index_dot_None s : Contains s "." = false → Index s "." = None.
Proof. unfold Contains. by destruct (Index s "."). Qed.

Lemma substring_0_app a x : substring 0 (String.length a) (a +:+ x) = a.
Proof.
  induction a as [|c a IH].
  - rewrite append_nil_l. by destruct x.
  - rewrite append_cons. cbn. by rewrite IH.
Qed.

Lemma substring_whole s : substring 0 (String.length s) s = s.
Proof. induction s as [|c s IH]; cbn; [done | by rewrite IH]. Qed.

Lemma length_app a x :
  String.length (a +:+ x) = String.length a + String.length x.
Proof.
  induction a as [|c a IH]; [done|].
  rewrite append_cons. cbn. by rewrite IH.
Qed.

Lemma slice_from_dot_app a b :
  slice_from (String.length a + String.length ".") (a +:+ "." +:+ b) = b.
Proof.
  unfold slice_from. rewrite !length_app.
  replace (String.length a + (String.length "." + String.length b)
           - (String.length a + String.length "."))
    with (String.length b) by lia.
  induction a as [|c a IH].
  - rewrite append_nil_l, append_cons, append_nil_l. cbn. apply substring_whole.
  - rewrite append_cons. cbn. apply IH.
Qed.

Lemma SplitN_dot_split a b :
  Contains a "." = false → SplitN (a +:+ "." +:+ b) "." 2 = [a; b].
Proof.
  intros Hno. cbn [SplitN]. rewrite (Index_dot_app a b Hno).
  by rewrite substring_0_app, slice_from_dot_app.
Qed.

Lemma SplitN_dot_none s : Contains s "." = false → SplitN s "." 2 = [s].
Proof. intros Hno. cbn [SplitN]. by rewrite (Index_dot_None s Hno). Qed.

Lemma Contains_dot_decompose s :
  Contains s "." = true →
  ∃ a b, s = a +:+ "." +:+ b ∧ Contains a "." = false.
Proof.
  induction s as [|c s IH]; intros Hc; [done|].
  rewrite Contains_dot_cons in Hc.
  destruct (Ascii.eqb_spec c ".") as [->|Hne].
  - by exists "", s.
  - destruct (IH Hc) as (a & b & -> & Ha).
    exists (String c a), b. split; [done|].
    rewrite Contains_dot_cons, Ha. by destruct (Ascii.eqb_spec c ".").
Qed.

Lemma SplitN_dot_length s :
  length (SplitN s "." 2) = if Contains s "." then 2 else 1.
Proof.
  destruct (Contains s ".") eqn:Hc.
  - destruct (Contains_dot_decompose s Hc) as (a & b & -> & Ha).
    by rewrite SplitN_dot_split.
  - by rewrite SplitN_dot_none.
Qed.

End SplitDot.

(** ** The namespace mapper *)

Lemma CustFilter_unsplittable ns nsnsMap :
  Contains ns "." = false → is_Ok (CustFilter ns nsnsMap) = false.
Proof.
  intros Hno. unfold CustFilter.
  rewrite (SplitN_dot_none ns Hno). by destruct (nsnsMap !! ns).
Qed.

Lemma CustFilter_unmapped db coll nsnsMap :
  Contains db "." = false →
  nsnsMap !! (db +:+ "." +:+ coll) = None →
  CustFilter (db +:+ "." +:+ coll) nsnsMap = Ok (mkNsMap db coll db coll).
Proof.
  intros Hdb Hnone. unfold CustFilter.
  by rewrite Hnone, (SplitN_dot_split db coll Hdb).
Qed.

Lemma CustFilter_mapped db coll d nsnsMap :
  Contains db "." = false →
  nsnsMap !! (db +:+ "." +:+ coll) = Some d →
  CustFilter (db +:+ "." +:+ coll) nsnsMap =
  match SplitN d "." 2 with
  | [ddb; dcoll] => Ok (mkNsMap db coll ddb dcoll)
  | _ => Panic "runtime error: index out of range"
  end.
Proof.
  intros Hdb Hsome. unfold CustFilter.
  rewrite Hsome, (SplitN_dot_split db coll Hdb).
  destruct (Contains d ".") eqn:Hd.
  - destruct (Contains_dot_decompose d Hd) as (a & b & -> & Ha).
    by rewrite (SplitN_dot_split a b Ha).
  - by rewrite (SplitN_dot_none d Hd).
Qed.

(** C5, as amended: [CustFilter] fails exactly when [ns] has no [.] or when
    [ns] is a key of the table whose value has no [.].  Otherwise, with [ns]
    split at its first [.] into [db] and [coll], the source pair is
    [(db, coll)]; the destination pair is the value of the table split at its
    first [.] when [ns] is a key, and the source pair when it is not. *)
Theorem CustFilter_spec (ns : string) (nsnsMap : gmap string string) :
  (is_Ok (CustFilter ns nsnsMap) = false ↔
     Contains ns "." = false
     ∨ ∃ d, nsnsMap !! ns = Some d ∧ Contains d "." = false)
  ∧ ∀ db coll, Contains db "." = false → ns = db +:+ "." +:+ coll →
      (nsnsMap !! ns = None →
       CustFilter ns nsnsMap = Ok (mkNsMap db coll db coll))
      ∧ (∀ ddb dcoll, Contains ddb "." = false →
           nsnsMap !! ns = Some (ddb +:+ "." +:+ dcoll) →
           CustFilter ns nsnsMap = Ok (mkNsMap db coll ddb dcoll)).
Proof.
  split.
  - split.
    + intros Hfail. destruct (Contains ns ".") eqn:Hns; [right | by left].
      destruct (Contains_dot_decompose ns Hns) as (db & coll & -> & Hdb).
      destruct (nsnsMap !! (db +:+ "." +:+ coll)) as [d|] eqn:Hlook.
      * exists d. split; [done|].
        rewrite (CustFilter_mapped db coll d nsnsMap Hdb Hlook) in Hfail.
        destruct (Contains d ".") eqn:Hd; [|done].
        destruct (Contains_dot_decompose d Hd) as (a & b & -> & Ha).
        by rewrite (SplitN_dot_split a b Ha) in Hfail.
      * by rewrite (CustFilter_unmapped db coll nsnsMap Hdb Hlook) in Hfail.
    + intros [Hno | (d & Hlook & Hd)].
      * by apply CustFilter_unsplittable.
      * destruct (Contains ns ".") eqn:Hns;
          [| by apply CustFilter_unsplittable].
        destruct (Contains_dot_decompose ns Hns) as (db & coll & -> & Hdb).
        rewrite (CustFilter_mapped db coll d nsnsMap Hdb Hlook).
        by rewrite (SplitN_dot_none d Hd).
  - intros db coll Hdb ->. split.
    + by apply CustFilter_unmapped.
    + intros ddb dcoll Hddb Hlook.
      rewrite (CustFilter_mapped db coll _ nsnsMap Hdb Hlook).
      by rewrite (SplitN_dot_split ddb dcoll Hddb).
Qed.

Lemma CustFilter_spec_witness :
  CustFilter "GlobalDB.Global.Service" {[ "GlobalDB.Global.Service" := "e.f.g" ]}
  = Ok (mkNsMap "GlobalDB" "Global.Service" "e" "f.g").
Proof.
  apply (proj2 (CustFilter_spec "GlobalDB.Global.Service"
                  {[ "GlobalDB.Global.Service" := "e.f.g" ]})
           "GlobalDB" "Global.Service" eq_refl eq_refl).
  - reflexivity.
  - reflexivity.
Defined.

(** C5, as stated, fails: the input has a [.], its table entry has none, and
    the call panics. *)
Lemma CustFilter_unsplittable_target_panics :
  Contains "d.c" "." = true
  ∧ CustFilter "d.c" {[ "d.c" := "e" ]} = Panic "runtime error: index out of range".
Proof. split; reflexivity. Qed.

(** ** The namespace filter *)

Lemma CustContainsNs_true_iff oplogns nsSlice :
  CustContainsNs oplogns nsSlice = true ↔
  ∃ value, value ∈ nsSlice
           ∧ (oplogns = value ∨ HasPrefix value (TrimSuffix oplogns "$cmd") = true).
Proof.
  induction nsSlice as [|v rest IH]; cbn [CustContainsNs].
  - split; [done | intros (? & []%elem_of_nil & _)].
  - destruct (String.eqb_spec oplogns v) as [->|Hne].
    + split; [|done]. intros _. exists v. split; [left | by left].
    + destruct (HasPrefix v (TrimSuffix oplogns "$cmd")) eqn:Hpre.
      * split; [|done]. intros _. exists v. split; [left | by right].
      * rewrite IH. split.
        -- intros (x & Hin & Hx). exists x. split; [by right | done].
        -- intros (x & Hin & Hx). apply elem_of_cons in Hin as [->|Hin].
           ++ destruct Hx as [?|?]; congruence.
           ++ by exists x.
Qed.

(** C1, on the code: an ordinary namespace that is a proper prefix of a filter
    entry is admitted, although it equals no entry and is no [$cmd]
    namespace. *)
Theorem CustContainsNs_admits_proper_prefix :
  CustContainsNs "app.user" ["app.users"] = true
  ∧ ("app.user" ∉ ["app.users"])
  ∧ HasSuffix "app.user" "$cmd" = false
  ∧ dst_requests
      (trace (run (St:=Script)
                (replay_step (source_with "syncoplog" "oplog.rs" [])
                   "syncoplog.oplog.rs" (primitive.mkTimestamp 0 0)
                   ["app.users"] ∅ 0
                   (oplog_entry (primitive.mkTimestamp 100 1) "i" "app.user" BNull
                      (BD [("_id", BInt32 1); ("v", BString "a")]))) []).2)
    = [ReplaceOne (mkCollection "app" "user") (BM [("_id", BInt32 1)])
         (BD [("_id", BInt32 1); ("v", BString "a")])
         (mkReplaceOptions None (Some true))].
Proof.
  split; [reflexivity|]. split; [|split; reflexivity].
  intros Hin. apply list_elem_of_singleton in Hin. discriminate.
Qed.

(** ** Computations that leave the destination alone *)

Section ReadsOnly.
Context {St : Type} `{!Driver St}.

Lemma dst_requests_app t1 t2 :
  dst_requests (t1 ++ t2)%list = (dst_requests t1 ++ dst_requests t2)%list.
Proof. apply omap_app. Qed.

Lemma reads_only_ret {A} (a : A) : reads_only (mret a : M St A).
Proof. by intros w. Qed.

Lemma reads_only_lift {A} (r : Res A) : reads_only (lift r : M St A).
Proof. by intros w. Qed.

Lemma reads_only_fatal {A} msg : reads_only (fatal msg : M St A).
Proof. by intros w. Qed.

Lemma reads_only_read r : reads_only (read r : M St unit).
Proof.
  intros w. unfold read. cbn. split; [done|].
  rewrite dst_requests_app. cbn. by rewrite app_nil_r.
Qed.

Lemma reads_only_bind {A B} (m : M St A) (k : A → M St B) :
  reads_only m → (∀ a, reads_only (k a)) → reads_only (m ≫= k).
Proof.
  intros Hm Hk w. unfold mbind, M_bind, bind.
  destruct (Hm w) as [Hd Ht]. destruct (m w) as [[a|e|e] w']; cbn in *.
  - destruct (Hk a w') as [Hd' Ht']. split; congruence.
  - done.
  - done.
Qed.

Lemma reads_only_forMi {A} (body : nat → A → M St unit) l :
  (∀ k x, x ∈ l → reads_only (body k x)) → ∀ k, reads_only (forMi body k l).
Proof.
  induction l as [|x l IH]; intros Hbody k; cbn [forMi].
  - apply reads_only_ret.
  - apply reads_only_bind.
    + apply Hbody. by left.
    + intros _. apply IH. intros k' y Hy. apply Hbody. by right.
Qed.

End ReadsOnly.

Create HintDb reads.
#[global] Hint Resolve reads_only_ret reads_only_lift reads_only_fatal
  reads_only_read : reads.

Ltac reads_only_step :=
  first [ solve [auto with reads] | apply reads_only_bind; [| intros ? ] ].

(** ** The replay engine *)

Section Replay.
Context {St : Type} `{!Driver St} (src : Source).

Lemma heartbeat_reads_only (b : bool) k :
  reads_only
    ((if b then
        read ReplSetGetStatus;;
        lift (CustGetLatestOplogTimestamp (status src k));;
        mret tt
      else mret tt) : M St unit).
Proof. destruct b; repeat reads_only_step. Qed.

Lemma apply_op_noop oplog nsStruct :
  Oplog.OP oplog = "n" → apply_op (St:=St) oplog nsStruct = mret tt.
Proof. intros Hop. unfold apply_op. by rewrite Hop. Qed.

(** C7: an entry whose [op] is [n] leaves the destination as it was and
    issues no request against it, whatever its namespace, the filter list
    and the mapping table. *)
Theorem replay_step_noop srcOplogNamespace endTS nsSlice nsnsMap k e oplog :
  typed e = Some oplog →
  Oplog.OP oplog = "n" →
  reads_only (replay_step (St:=St) src srcOplogNamespace endTS nsSlice nsnsMap k e).
Proof.
  intros Hty Hop. unfold replay_step. rewrite Hty.
  apply reads_only_bind; [apply heartbeat_reads_only | intros _].
  destruct (CustGetOplogNs oplog) as [dstDbName dstCollName].
  destruct (CustContainsNs _ nsSlice); [|apply reads_only_ret].
  apply reads_only_bind; [apply reads_only_lift | intros nsStruct].
  rewrite (apply_op_noop oplog nsStruct Hop). apply reads_only_ret.
Qed.

Lemma replay_step_empty_filter srcOplogNamespace endTS nsnsMap k e :
  reads_only (replay_step (St:=St) src srcOplogNamespace endTS [] nsnsMap k e).
Proof.
  unfold replay_step. destruct (typed e) as [oplog|]; [|apply reads_only_fatal].
  apply reads_only_bind; [apply heartbeat_reads_only | intros _].
  destruct (CustGetOplogNs oplog) as [dstDbName dstCollName].
  cbn [CustContainsNs]. apply reads_only_ret.
Qed.

(** The part of [CustReplayOplog] before the loop reads only. *)
Lemma CustReplayOplog_reads_only_if startTS endTS srcOplogNamespace nsSlice nsnsMap :
  (∀ ns k e,
     reads_only (replay_step (St:=St) src ns endTS nsSlice nsnsMap k e)) →
  reads_only
    (CustReplayOplog (St:=St) src startTS endTS srcOplogNamespace nsSlice nsnsMap).
Proof.
  intros Hstep. unfold CustReplayOplog.
  destruct (negb _); [apply reads_only_fatal|].
  do 2 (apply reads_only_bind; [apply reads_only_lift | intros ?]).
  apply reads_only_bind; [apply reads_only_read | intros _].
  destruct (read_error src (FindOne _ _)); [apply reads_only_fatal|].
  destruct (find_one _ _); [|apply reads_only_fatal].
  apply reads_only_bind; [apply reads_only_lift | intros ts].
  destruct (negb _); [apply reads_only_fatal|].
  apply reads_only_bind; [apply reads_only_read | intros _].
  destruct (read_error src _); [apply reads_only_fatal|].
  apply reads_only_forMi. intros k x _. apply Hstep.
Qed.

(** C8: the empty filter list admits no namespace, and a replay under it
    leaves the destination as it was and issues no request against it. *)
Theorem CustReplayOplog_empty_filter startTS endTS srcOplogNamespace nsnsMap s :
  (∀ oplogns, CustContainsNs oplogns [] = false)
  ∧ let w := (run (CustReplayOplog src startTS endTS srcOplogNamespace [] nsnsMap) s).2 in
    dst w = s ∧ dst_requests (trace w) = [].
Proof.
  split; [done|]. cbn zeta. unfold run.
  apply (CustReplayOplog_reads_only_if startTS endTS srcOplogNamespace [] nsnsMap).
  intros ns k e. apply replay_step_empty_filter.
Qed.

Lemma lt_not_Equal a b : primitive.lt a b = true → primitive.Equal b a = false.
Proof.
  unfold primitive.lt, primitive.Equal. intros H.
  apply andb_false_iff. apply orb_true_iff in H as [H|H].
  - left. apply Z.eqb_neq. apply Z.ltb_lt in H. lia.
  - apply andb_true_iff in H as [H1 H2]. right.
    apply Z.eqb_neq. apply Z.ltb_lt in H2. lia.
Qed.

Lemma find_one_elem lo l e : find_one lo l = Some e → e ∈ l.
Proof.
  unfold find_one. intros H. apply head_Some_elem_of in H.
  by apply list_elem_of_filter in H as [_ ?].
Qed.

(** C2: when every entry of the collection the replay reads from is later
    than [startTS], the run ends in [log.Fatal] with the destination as it
    was: the trace holds no request against the destination and no [Find],
    so the main cursor was never opened. *)
Theorem CustReplayOplog_rolled_over startTS endTS srcOplogNamespace nsSlice nsnsMap s :
  (∀ db coll e,
     SplitN (if String.eqb srcOplogNamespace "" then local_oplog_rs
             else srcOplogNamespace) "." 2 = [db; coll] →
     e ∈ contents src (mkCollection db coll) →
     ∃ t, index_key (raw e) "ts" = BTimestamp t ∧ primitive.lt startTS t = true) →
  ∃ msg t,
    run (CustReplayOplog src startTS endTS srcOplogNamespace nsSlice nsnsMap) s
    = (Fatal msg, mkWorld s t)
    ∧ (∀ r, Dst r ∉ t)
    ∧ (∀ c lo hi ct nt, Src (Find c lo hi ct nt) ∉ t).
Proof.
  intros Hlater. unfold run, CustReplayOplog.
  set (ns := if String.eqb srcOplogNamespace "" then local_oplog_rs
             else srcOplogNamespace) in *.
  rewrite SplitN_dot_length.
  destruct (Contains ns ".") eqn:Hns; cbn [Nat.eqb negb].
  2:{ eexists _, []. split; [reflexivity|]. split; intros; apply not_elem_of_nil. }
  destruct (Contains_dot_decompose ns Hns) as (db & coll & Heq & Hdb).
  specialize (Hlater db coll).
  rewrite Heq, (SplitN_dot_split db coll Hdb) in Hlater |- *.
  specialize (λ e, Hlater e eq_refl).
  assert (Hnone : ∀ t, t = [Src (FindOne (mkCollection db coll) startTS)] →
            (∀ r, Dst r ∉ t) ∧ (∀ c lo hi ct nt, Src (Find c lo hi ct nt) ∉ t)).
  { intros t ->. split; intros; intros Hin;
      apply list_elem_of_singleton in Hin; discriminate. }
  unfold mbind, M_bind, bind, lift, read, fatal. cbn.
  destruct (read_error src (FindOne _ _)) as [err|].
  { eexists _, _. split; [reflexivity | by apply Hnone]. }
  destruct (find_one _ _) as [first|] eqn:Hfind.
  2:{ eexists _, _. split; [reflexivity | by apply Hnone]. }
  destruct (Hlater first (find_one_elem _ _ _ Hfind)) as (t & Hts & Hlt).
  rewrite Hts. cbn. rewrite (lt_not_Equal _ _ Hlt). cbn.
  eexists _, _. split; [reflexivity | by apply Hnone].
Qed.

End Replay.

(** The periodic noop, admitted by the filter through its namespace. *)
Lemma replay_step_noop_witness :
  reads_only
    (replay_step (St:=Script) (source_with "local" "oplog.rs" [])
       "local.oplog.rs" (primitive.mkTimestamp 0 0) ["d.c"] ∅ 0
       (oplog_entry (primitive.mkTimestamp 1553916453 1) "n" "d.c" BNull
          (BD [("msg", BString "periodic noop")]))).
Proof.
  apply (replay_step_noop (St:=Script) (source_with "local" "oplog.rs" [])
           "local.oplog.rs" (primitive.mkTimestamp 0 0) ["d.c"] ∅ 0 _
           (Oplog.mkOPLOG (primitive.mkTimestamp 1553916453 1) 7 0 2 "n" "d.c" BNull
              (BD [("msg", BString "periodic noop")]))).
  - reflexivity.
  - reflexivity.
Defined.

(** The capped log starts at [(500,1)] and the caller asks for [(400,1)]. *)
Lemma CustReplayOplog_rolled_over_witness :
  ∃ msg t,
    run (St:=Script)
      (CustReplayOplog
         (source_with "local" "oplog.rs"
            [oplog_entry (primitive.mkTimestamp 500 1) "i" "d.c" BNull
               (BD [("_id", BInt32 1)])])
         (primitive.mkTimestamp 400 1) (primitive.mkTimestamp 0 0) "" ["d.c"] ∅) []
    = (Fatal msg, mkWorld [] t)
    ∧ (∀ r, Dst r ∉ t)
    ∧ (∀ c lo hi ct nt, Src (Find c lo hi ct nt) ∉ t).
Proof.
  apply (CustReplayOplog_rolled_over (St:=Script)).
  intros db coll e Hsplit He. injection Hsplit as <- <-.
  apply list_elem_of_singleton in He as ->.
  by exists (primitive.mkTimestamp 500 1).
Defined.

(** ** The batched writer *)

Section Writer.
Context {St : Type} `{!Driver St}.

Lemma int64_small z : (- 2 ^ 63 ≤ z < 2 ^ 63)%Z → int64 z = z.
Proof. intros Hz. unfold int64. rewrite Z.mod_small; lia. Qed.

Lemma incr_small z : (0 ≤ z < 2 ^ 63 - 1)%Z → incr z = (z + 1)%Z.
Proof. intros Hz. unfold incr. apply int64_small. lia. Qed.

(** Each invocation of the handler that returns bumps exactly one of the
    two counters. *)
Lemma insertManyErrHandler_bumps_one coll updateOverwrite doc n f w n' f' w' :
  insertManyErrHandler coll updateOverwrite doc (n, f) w = (Ok (n', f'), w') →
  (n' = incr n ∧ f' = f) ∨ (n' = n ∧ f' = incr f).
Proof.
  unfold insertManyErrHandler, mbind, M_bind, bind, mret, M_ret, ret, lift, call.
  destruct updateOverwrite.
  - destruct (assert_D doc) as [d| |]; [|done..].
    destruct (exec _ (dst w)) as [s' [e|]]; intros [= <- <- <-]; auto.
  - destruct (exec _ (dst w)) as [s' [e|]].
    + destruct (Contains e _); intros [= <- <- <-]; auto.
    + intros [= <- <- <-]; auto.
Qed.

Lemma fallback_counters coll updateOverwrite order :
  ∀ n f w n' f' w',
    (0 ≤ n)%Z → (0 ≤ f)%Z →
    (n + f + Z.of_nat (length order) < 2 ^ 63)%Z →
    foldM (insertManyErrHandler coll updateOverwrite) order (n, f) w
    = (Ok (n', f'), w') →
    (0 ≤ n')%Z ∧ (0 ≤ f')%Z ∧ (n' + f' = n + f + Z.of_nat (length order))%Z.
Proof.
  induction order as [|doc order IH]; intros n f w n' f' w' Hn Hf Hlen.
  - cbn. intros [= <- <- <-]. lia.
  - cbn [foldM length] in *. unfold mbind at 1, M_bind at 1, bind at 1.
    destruct (insertManyErrHandler _ _ _ _ w) as [[[n1 f1]|e|e] w1] eqn:Hh; [|done..].
    intros Hrest.
    apply insertManyErrHandler_bumps_one in Hh as [[-> ->]|[-> ->]].
    + rewrite incr_small in Hrest by lia.
      apply IH in Hrest; lia.
    + rewrite incr_small in Hrest by lia.
      apply IH in Hrest; lia.
Qed.

(** C9: a call that returns reports counters that add up to the size of the
    batch; after a successful bulk insert they are [(n, 0)], and in the
    fallback every handled document bumps exactly one of them. *)
Theorem CustInsertMany_counters coll docs updateOverwrite order w sucessNum failNum w' :
  order ≡ₚ docs →
  (Z.of_nat (length docs) < 2 ^ 63)%Z →
  CustInsertMany coll docs updateOverwrite order w = (Ok (sucessNum, failNum), w') →
  (sucessNum + failNum = Z.of_nat (length docs))%Z
  ∧ (0 ≤ sucessNum)%Z ∧ (0 ≤ failNum)%Z
  ∧ ((exec (InsertMany coll docs (mkInsertManyOptions (Some true) (Some false)))
           (dst w)).2 = None →
     sucessNum = Z.of_nat (length docs) ∧ failNum = 0%Z)
  ∧ (∀ doc n f v n' f' v',
       insertManyErrHandler coll updateOverwrite doc (n, f) v = (Ok (n', f'), v') →
       (n' = incr n ∧ f' = f) ∨ (n' = n ∧ f' = incr f)).
Proof.
  intros Hperm Hlen. unfold CustInsertMany.
  unfold mbind at 1, M_bind at 1, bind at 1, call at 1.
  destruct (exec _ (dst w)) as [s1 [e|]] eqn:Hexec; cbn [snd].
  - intros Hfold. rewrite <- (Permutation_length Hperm) in Hlen |- *.
    assert (H0 : (0 ≤ 0)%Z) by lia.
    assert (Hb : (0 + 0 + Z.of_nat (length order) < 2 ^ 63)%Z) by lia.
    pose proof (fallback_counters _ _ _ _ _ _ _ _ _ H0 H0 Hb Hfold) as Hsum.
    split; [lia|]. split; [lia|]. split; [lia|]. split; [done|].
    intros *. apply insertManyErrHandler_bumps_one.
  - do 2 rewrite (int64_small (Z.of_nat (length docs))) by lia.
    intros [= <- <- <-].
    split; [lia|]. split; [lia|]. split; [lia|]. split; [done|].
    intros *. apply insertManyErrHandler_bumps_one.
Qed.

(** The fallback under the skip policy, request by request. *)
Lemma fallback_skip_run coll order :
  ∀ c w,
    let reqs := map (λ d, InsertOne coll d (mkInsertOneOptions (Some true))) order in
    foldM (insertManyErrHandler coll false) order c w =
    (Ok (foldl (λ '(n, f) a, if is_nil a || is_duplicate_key a
                             then (incr n, f) else (n, incr f))
               c (serve reqs (dst w)).2),
     mkWorld (serve reqs (dst w)).1 (trace w ++ map Dst reqs)).
Proof.
  induction order as [|doc order IH]; intros [n f] w; cbn zeta.
  - cbn. rewrite app_nil_r. by destruct w.
  - cbn [foldM map serve]. unfold mbind at 1, M_bind at 1, bind at 1.
    unfold insertManyErrHandler at 1.
    unfold mbind at 1, M_bind at 1, bind at 1, call at 1.
    destruct (exec _ (dst w)) as [s1 a] eqn:Hexec.
    assert (Hstep : ∀ c', foldM (insertManyErrHandler coll false) order c'
                (mkWorld s1 (trace w ++ [Dst (InsertOne coll doc (mkInsertOneOptions (Some true)))]))
              = (Ok (foldl (λ '(n, f) a, if is_nil a || is_duplicate_key a
                             then (incr n, f) else (n, incr f)) c'
                       (serve (map (λ d, InsertOne coll d (mkInsertOneOptions (Some true))) order) s1).2),
                 mkWorld (serve (map (λ d, InsertOne coll d (mkInsertOneOptions (Some true))) order) s1).1
                   (trace w ++ Dst (InsertOne coll doc (mkInsertOneOptions (Some true)))
                      :: map Dst (map (λ d, InsertOne coll d (mkInsertOneOptions (Some true))) order)))).
    { intros c'. rewrite IH. cbn [dst trace]. by rewrite <- app_assoc. }
    destruct (serve _ s1) as [s2 answers] eqn:Hserve. cbn [fst snd] in *.
    destruct a as [e|]; cbn [is_nil is_duplicate_key orb foldl].
    + destruct (Contains e _); cbn; apply Hstep.
    + cbn. apply Hstep.
Qed.

Lemma tally_counts answers :
  ∀ n f,
    (0 ≤ n)%Z → (0 ≤ f)%Z →
    (n + f + Z.of_nat (length answers) < 2 ^ 63)%Z →
    foldl (λ '(n, f) a, if is_nil a || is_duplicate_key a
                        then (incr n, f) else (n, incr f))
          (n, f) answers
    = ((n + Z.of_nat (count_if (λ a, is_nil a || is_duplicate_key a) answers))%Z,
       (f + Z.of_nat (count_if (λ a, negb (is_nil a || is_duplicate_key a)) answers))%Z).
Proof.
  induction answers as [|a answers IH]; intros n f Hn Hf Hlen.
  - cbn. f_equal; lia.
  - cbn [foldl count_if length] in *.
    destruct (is_nil a || is_duplicate_key a); cbn [negb].
    + rewrite incr_small by lia. rewrite IH by lia. f_equal; lia.
    + rewrite incr_small by lia. rewrite IH by lia. f_equal; lia.
Qed.

Lemma serve_length rs : ∀ s, length (serve rs s).2 = length rs.
Proof.
  induction rs as [|r rs IH]; intros s; [done|].
  cbn [serve]. destruct (exec r s) as [s' a]. specialize (IH s').
  destruct (serve rs s') as [s'' answers]. cbn in *. by rewrite IH.
Qed.

(** C6: when the bulk insert fails under the skip policy, the fallback
    issues exactly one insert-one per document of the batch and nothing
    else; an answer that is nil or a duplicate-key error counts as a
    success, every other answer as a failure. *)
Theorem CustInsertMany_skip_on_duplicate coll docs order w :
  order ≡ₚ docs →
  (Z.of_nat (length docs) < 2 ^ 63)%Z →
  let bulk := InsertMany coll docs (mkInsertManyOptions (Some true) (Some false)) in
  is_nil (exec bulk (dst w)).2 = false →
  let reqs := map (λ d, InsertOne coll d (mkInsertOneOptions (Some true))) order in
  let served := serve reqs (exec bulk (dst w)).1 in
  reqs ≡ₚ map (λ d, InsertOne coll d (mkInsertOneOptions (Some true))) docs
  ∧ CustInsertMany coll docs false order w =
    (Ok (Z.of_nat (count_if (λ a, is_nil a || is_duplicate_key a) served.2),
         Z.of_nat (count_if (λ a, negb (is_nil a || is_duplicate_key a)) served.2)),
     mkWorld served.1 (trace w ++ Dst bulk :: map Dst reqs)).
Proof.
  intros Hperm Hlen bulk Hfail reqs served.
  split; [by apply fmap_Permutation|].
  unfold CustInsertMany. unfold mbind at 1, M_bind at 1, bind at 1, call at 1.
  fold bulk. subst served. destruct (exec bulk (dst w)) as [s1 [e|]]; [|done].
  cbn [fst snd]. rewrite fallback_skip_run. cbn [dst trace].
  rewrite tally_counts.
  - rewrite !Z.add_0_l. fold reqs. by rewrite <- app_assoc.
  - lia.
  - lia.
  - rewrite serve_length, length_map, (Permutation_length Hperm). lia.
Qed.

(** The requests of a call under the skip policy. *)
Lemma CustInsertMany_skip_trace coll docs order w :
  let bulk := InsertMany coll docs (mkInsertManyOptions (Some true) (Some false)) in
  trace (CustInsertMany coll docs false order w).2 =
  (trace w ++ Dst bulk ::
     (if is_nil (exec bulk (dst w)).2 then []
      else map (λ d, Dst (InsertOne coll d (mkInsertOneOptions (Some true)))) order))%list.
Proof.
  cbn zeta. unfold CustInsertMany.
  unfold mbind at 1, M_bind at 1, bind at 1, call at 1.
  destruct (exec _ (dst w)) as [s1 [e|]]; cbn [fst snd is_nil].
  - rewrite fallback_skip_run. cbn [snd dst trace].
    by rewrite <- app_assoc, map_map.
  - done.
Qed.

End Writer.

Lemma CustInsertMany_counters_witness :
  (2 + 0 = Z.of_nat (length [nameless; nameless]))%Z
  ∧ (0 ≤ 2)%Z ∧ (0 ≤ 0)%Z
  ∧ ((exec (InsertMany (mkCollection "d" "c") [nameless; nameless]
              (mkInsertManyOptions (Some true) (Some false)))
           (dst (mkWorld (St:=Script) [Some "E11000 duplicate key error"; None] []))).2
     = None → 2%Z = Z.of_nat (length [nameless; nameless]) ∧ 0%Z = 0%Z)
  ∧ (∀ doc n f v n' f' v',
       insertManyErrHandler (St:=Script) (mkCollection "d" "c") true doc (n, f) v
       = (Ok (n', f'), v') →
       (n' = incr n ∧ f' = f) ∨ (n' = n ∧ f' = incr f)).
Proof.
  apply (CustInsertMany_counters (St:=Script) (mkCollection "d" "c")
           [nameless; nameless] true [nameless; nameless]
           (mkWorld [Some "E11000 duplicate key error"; None] []) 2 0
           (mkWorld [] [Dst (InsertMany (mkCollection "d" "c") [nameless; nameless]
                               (mkInsertManyOptions (Some true) (Some false)));
                        Dst (ReplaceOne (mkCollection "d" "c")
                               (BM [("_id", BInt32 1)]) nameless
                               (mkReplaceOptions (Some false) (Some true)));
                        Dst (ReplaceOne (mkCollection "d" "c")
                               (BM [("_id", BInt32 1)]) nameless
                               (mkReplaceOptions (Some false) (Some true)))])).
  - reflexivity.
  - reflexivity.
  - reflexivity.
Defined.

(** A batch of three whose bulk insert fails; the per-document inserts answer
    nil, duplicate key, and a validation error. *)
Lemma CustInsertMany_skip_on_duplicate_witness :
  CustInsertMany (St:=Script) (mkCollection "d" "c")
    [BD [("_id", BInt32 1)]; BD [("_id", BInt32 2)]; BD [("_id", BInt32 3)]] false
    [BD [("_id", BInt32 2)]; BD [("_id", BInt32 1)]; BD [("_id", BInt32 3)]]
    (mkWorld [Some "E11000 duplicate key error collection: d.c index: _id_";
              None;
              Some "E11000 duplicate key error collection: d.c index: _id_";
              Some "Document failed validation"] [])
  = (Ok (2%Z, 1%Z),
     mkWorld []
       [Dst (InsertMany (mkCollection "d" "c")
               [BD [("_id", BInt32 1)]; BD [("_id", BInt32 2)]; BD [("_id", BInt32 3)]]
               (mkInsertManyOptions (Some true) (Some false)));
        Dst (InsertOne (mkCollection "d" "c") (BD [("_id", BInt32 2)])
               (mkInsertOneOptions (Some true)));
        Dst (InsertOne (mkCollection "d" "c") (BD [("_id", BInt32 1)])
               (mkInsertOneOptions (Some true)));
        Dst (InsertOne (mkCollection "d" "c") (BD [("_id", BInt32 3)])
               (mkInsertOneOptions (Some true)))]).
Proof.
  refine (proj2 (CustInsertMany_skip_on_duplicate (St:=Script) (mkCollection "d" "c")
           [BD [("_id", BInt32 1)]; BD [("_id", BInt32 2)]; BD [("_id", BInt32 3)]]
           [BD [("_id", BInt32 2)]; BD [("_id", BInt32 1)]; BD [("_id", BInt32 3)]]
           (mkWorld [Some "E11000 duplicate key error collection: d.c index: _id_";
                     None;
                     Some "E11000 duplicate key error collection: d.c index: _id_";
                     Some "Document failed validation"] []) _ _ _)).
  - apply perm_swap.
  - reflexivity.
  - reflexivity.
Defined.

(** C10: the bulk insert is ordered and does not bypass document validation,
    while every insert-one of the fallback under the skip policy bypasses it;
    on a destination that validates, a document refused by the bulk insert is
    therefore stored by the fallback and reported as a success. *)
Theorem CustInsertMany_validation_asymmetry :
  (∀ St (D : Driver St) coll docs order (w : World St),
     let bulk := InsertMany coll docs (mkInsertManyOptions (Some true) (Some false)) in
     trace (CustInsertMany coll docs false order w).2 =
     (trace w ++ Dst bulk ::
        (if is_nil (exec bulk (dst w)).2 then []
         else map (λ d, Dst (InsertOne coll d (mkInsertOneOptions (Some true)))) order))%list)
  ∧ (let coll := mkCollection "d" "c" in
     let empty := mkValidated requires_name [] in
     exec (InsertMany coll [nameless] (mkInsertManyOptions (Some true) (Some false))) empty
     = (empty, Some "Document failed validation")
     ∧ ∃ w, CustInsertMany coll [nameless] false [nameless] (mkWorld empty [])
            = (Ok (1%Z, 0%Z), w)
            ∧ stored (dst w) = [nameless]).
Proof.
  split.
  - intros St D coll docs order w. apply CustInsertMany_skip_trace.
  - cbn zeta. split; [reflexivity|]. eexists. split; reflexivity.
Qed.

(** ** The index cloner *)

Section Indexes.
Context {St : Type} `{!Driver St} (src : Source).

Lemma foldM_app {A B} (body : A → B → M St B) l1 l2 acc w :
  foldM body (l1 ++ l2) acc w =
  match foldM body l1 acc w with
  | (Ok acc', w') => foldM body l2 acc' w'
  | (Panic e, w') => (Panic e, w')
  | (Fatal e, w') => (Fatal e, w')
  end.
Proof.
  revert acc w. induction l1 as [|x l1 IH]; intros acc w; [done|].
  cbn [app foldM]. unfold mbind, M_bind, bind.
  destruct (body x acc w) as [[acc'|e|e] w']; [apply IH | done | done].
Qed.

(** C3, as amended: indexes are created in the order of the enumeration,
    and the job ends at the first one whose creation returns an error,
    whichever index it is: through [log.Fatalf] when the index has a name,
    through a nil dereference when it has none. *)
Theorem CustSyncIndex_any_error_ends_job
    srcDbName srcCollName dstDbName dstCollName
    before indexresult after indexopt s w1 s' e :
  let srcColl := mkCollection srcDbName srcCollName in
  let dstColl := mkCollection dstDbName dstCollName in
  read_error src (ListIndexes srcColl) = None →
  indexes src srcColl = before ++ indexresult :: after →
  forM (CustSyncIndex_step dstColl) before (mkWorld s [Src (ListIndexes srcColl)])
  = (Ok tt, w1) →
  index_options indexresult = Ok indexopt →
  exec (CreateOne dstColl (index_model indexresult indexopt)) (dst w1) = (s', Some e) →
  ∃ r,
    run (CustSyncIndex src srcDbName srcCollName dstDbName dstCollName) s
    = (r, mkWorld s' (trace w1 ++ [Dst (CreateOne dstColl
                                          (index_model indexresult indexopt))]))
    ∧ is_Ok r = false
    ∧ (is_Some (Name indexopt) → ∃ msg, r = Fatal msg).
Proof.
  intros srcColl dstColl Hread Hidx Hbefore Hopt Hexec.
  unfold run, CustSyncIndex. fold srcColl dstColl.
  unfold mbind at 1, M_bind at 1, bind at 1, read at 1. cbn [dst trace app].
  rewrite Hread, Hidx. unfold forM in *. rewrite foldM_app, Hbefore.
  cbn [foldM]. unfold mbind at 1, M_bind at 1, bind at 1.
  unfold CustSyncIndex_step at 1.
  unfold mbind, M_bind, bind, lift, call. rewrite Hopt, Hexec.
  destruct (Name indexopt) as [name|]; cbn.
  - eexists. split; [reflexivity|]. split; [done|]. intros _. by eexists.
  - eexists. split; [reflexivity|]. split; [done|]. by intros [? ?].
Qed.

End Indexes.

(** A unique secondary index whose creation the destination refuses. *)
Lemma CustSyncIndex_any_error_ends_job_witness :
  ∃ r,
    run (St:=Script)
      (CustSyncIndex
         (source_with_indexes "d" "c"
            [[("v", BInt32 2); ("key", BM [("x", BInt32 1)]); ("name", BString "x_1");
              ("ns", BString "d.c"); ("unique", BBool true)]])
         "d" "c" "e" "f") [Some "Index with name: x_1 already exists with different options"]
    = (r, mkWorld []
            [Src (ListIndexes (mkCollection "d" "c"));
             Dst (CreateOne (mkCollection "e" "f")
                    (mkIndexModel (BM [("x", BInt32 1)])
                       (Some (mkIndexOptions None None (Some "x_1") None (Some true)
                                None None None None))))])
    ∧ is_Ok r = false
    ∧ (is_Some (Some "x_1") → ∃ msg, r = Fatal msg).
Proof.
  apply (CustSyncIndex_any_error_ends_job (St:=Script)
           (source_with_indexes "d" "c"
              [[("v", BInt32 2); ("key", BM [("x", BInt32 1)]); ("name", BString "x_1");
                ("ns", BString "d.c"); ("unique", BBool true)]])
           "d" "c" "e" "f" []
           [("v", BInt32 2); ("key", BM [("x", BInt32 1)]); ("name", BString "x_1");
            ("ns", BString "d.c"); ("unique", BBool true)] []
           (mkIndexOptions None None (Some "x_1") None (Some true) None None None None)
           [Some "Index with name: x_1 already exists with different options"]
           (mkWorld [Some "Index with name: x_1 already exists with different options"]
              [Src (ListIndexes (mkCollection "d" "c"))])
           [] "Index with name: x_1 already exists with different options").
  - reflexivity.
  - reflexivity.
  - reflexivity.
  - reflexivity.
  - reflexivity.
Defined.

(** C3, as stated, fails: the destination answers the creation of the [_id]
    index with an already-exists error and the job ends in [log.Fatalf]. *)
Lemma CustSyncIndex_id_index_exists_is_fatal :
  run (St:=Script)
    (CustSyncIndex
       (source_with_indexes "d" "c"
          [[("v", BInt32 2); ("key", BM [("_id", BInt32 1)]); ("name", BString "_id_");
            ("ns", BString "d.c")]])
       "d" "c" "e" "f") [Some "Index already exists with a different name: _id_"]
  = (Fatal "db[e].coll[f] index[_id_] create failed: Index already exists with a different name: _id_",
     mkWorld []
       [Src (ListIndexes (mkCollection "d" "c"));
        Dst (CreateOne (mkCollection "e" "f")
               (mkIndexModel (BM [("_id", BInt32 1)])
                  (Some (mkIndexOptions None None (Some "_id_") None None
                           None None None None))))]).
Proof. reflexivity. Qed.

(** ** The staging writer *)

Section Staging.
Context {St : Type} `{!Driver St} (src : Source).





End Staging.



(** * Further properties of [utils.go] *)

(** ** More on strings *)

Lemma append_assoc a b c : (a +:+ b) +:+ c = a +:+ (b +:+ c).
Proof.
  induction a as [|x a IH]; [by rewrite !append_nil_l|].
  by rewrite !append_cons, IH.
Qed.

Lemma prefix_app a x : String.prefix a (a +:+ x) = true.
Proof.
  induction a as [|c a IH]; [apply prefix_empty|].
  rewrite append_cons. cbn. by destruct (ascii_dec c c).
Qed.

Lemma substring_skip_app a s :
  substring (String.length a) (String.length s) (a +:+ s) = s.
Proof.
  induction a as [|c a IH].
  - rewrite append_nil_l. apply substring_whole.
  - rewrite append_cons. cbn. apply IH.
Qed.

Lemma HasSuffix_app a s : HasSuffix (a +:+ s) s = true.
Proof.
  unfold HasSuffix. rewrite length_app.
  replace (String.length a + String.length s - String.length s)
    with (String.length a) by lia.
  rewrite substring_skip_app, String.eqb_refl, andb_true_r.
  apply Nat.leb_le. lia.
Qed.

Lemma TrimSuffix_app a s : TrimSuffix (a +:+ s) s = a.
Proof.
  unfold TrimSuffix. rewrite HasSuffix_app, length_app.
  replace (String.length a + String.length s - String.length s)
    with (String.length a) by lia.
  apply substring_0_app.
Qed.

(** ** The namespace filter, in general *)

(** A command namespace [db.$cmd] is admitted exactly when some entry of the
    filter list starts with [db.]. *)
Theorem CustContainsNs_cmd_iff db nsSlice :
  CustContainsNs (db +:+ ".$cmd") nsSlice = true ↔
  ∃ value, value ∈ nsSlice ∧ HasPrefix value (db +:+ ".") = true.
Proof.
  rewrite CustContainsNs_true_iff.
  change (db +:+ ".$cmd") with (db +:+ ("." +:+ "$cmd")).
  rewrite <- append_assoc, TrimSuffix_app.
  split.
  - intros (value & Hin & [Heq|Hpre]); exists value; (split; [done|]); [|done].
    rewrite <- Heq. apply prefix_app.
  - intros (value & Hin & Hpre). exists value. auto.
Qed.

(** [CustContainsNs] admits a namespace exactly when some entry of the filter
    list equals it or starts with it, the namespace being taken without a
    trailing [$cmd]. *)
Theorem CustContainsNs_admits_iff oplogns nsSlice :
  CustContainsNs oplogns nsSlice = true ↔
  ∃ value, value ∈ nsSlice
           ∧ (oplogns = value ∨ HasPrefix value (TrimSuffix oplogns "$cmd") = true).
Proof. apply CustContainsNs_true_iff. Qed.

(** ** The namespace mapper, read backwards *)

(** A successful [CustFilter] loses nothing: the source pair joined by a dot
    is the input and its database has no dot; the destination pair is, in the
    same way, the table's value for the input, or the source pair when the
    input is not a key. *)
Theorem CustFilter_round_trip ns nsnsMap r :
  CustFilter ns nsnsMap = Ok r →
  ns = SrcDb r +:+ "." +:+ SrcColl r
  ∧ Contains (SrcDb r) "." = false
  ∧ match nsnsMap !! ns with
    | Some d => d = DstDb r +:+ "." +:+ DstColl r ∧ Contains (DstDb r) "." = false
    | None => DstDb r = SrcDb r ∧ DstColl r = SrcColl r
    end.
Proof.
  intros Hok.
  destruct (Contains ns ".") eqn:Hns.
  2:{ pose proof (CustFilter_unsplittable ns nsnsMap Hns) as H.
      by rewrite Hok in H. }
  destruct (Contains_dot_decompose ns Hns) as (db & coll & -> & Hdb).
  destruct (nsnsMap !! (db +:+ "." +:+ coll)) as [d|] eqn:Hlook.
  - rewrite (CustFilter_mapped db coll d nsnsMap Hdb Hlook) in Hok.
    destruct (Contains d ".") eqn:Hd.
    + destruct (Contains_dot_decompose d Hd) as (ddb & dcoll & -> & Hddb).
      rewrite (SplitN_dot_split ddb dcoll Hddb) in Hok.
      by injection Hok as <-.
    + by rewrite (SplitN_dot_none d Hd) in Hok.
  - rewrite (CustFilter_unmapped db coll nsnsMap Hdb Hlook) in Hok.
    by injection Hok as <-.
Qed.

Lemma CustFilter_round_trip_witness :
  "d.c.x" = "d" +:+ "." +:+ "c.x"
  ∧ Contains "d" "." = false
  ∧ match ({[ "d.c.x" := "e.f" ]} : gmap string string) !! "d.c.x" with
    | Some d => d = "e" +:+ "." +:+ "f" ∧ Contains "e" "." = false
    | None => "e" = "d" ∧ "f" = "c.x"
    end.
Proof.
  apply (CustFilter_round_trip "d.c.x" {[ "d.c.x" := "e.f" ]}
           (mkNsMap "d" "c.x" "e" "f")).
  reflexivity.
Defined.

(** ** Slices of strings *)

Lemma first_index_None slice element :
  first_index slice element = None ↔ element ∉ slice.
Proof.
  induction slice as [|value rest IH]; cbn [first_index].
  - split; [intros _; apply not_elem_of_nil | done].
  - rewrite not_elem_of_cons.
    destruct (String.eqb_spec value element) as [->|Hne].
    + split; [done | by intros [? _]].
    + destruct (first_index rest element) eqn:Hf; cbn.
      * split; [done|]. intros [_ Hnot]. by apply IH in Hnot.
      * split; [|done]. intros _. split; [congruence | by apply IH].
Qed.

Lemma first_index_Some slice element index :
  first_index slice element = Some index →
  slice = take index slice ++ element :: drop (S index) slice
  ∧ (element ∉ take index slice)
  ∧ length (take index slice) = index.
Proof.
  revert index. induction slice as [|value rest IH]; intros index; cbn [first_index].
  - done.
  - destruct (String.eqb_spec value element) as [->|Hne].
    + intros [= <-]. cbn. split; [by rewrite drop_0|].
      split; [apply not_elem_of_nil | done].
    + destruct (first_index rest element) as [j|] eqn:Hf; [|done].
      cbn. intros [= <-]. destruct (IH j eq_refl) as (Heq & Hnot & Hlen).
      cbn. split; [by rewrite <- Heq|]. split; [|by rewrite Hlen].
      rewrite not_elem_of_cons. split; [congruence | done].
Qed.

Lemma drop_to_last {A} (l : list A) (d : A) :
  l ≠ [] → drop (length l - 1) l = [List.last l d].
Proof.
  induction l as [|x l IH]; [done|]. intros _.
  destruct l as [|y l]; [done|].
  cbn [length]. replace (S (S (length l)) - 1) with (S (length (y :: l) - 1))
    by (cbn; lia).
  cbn [drop]. by rewrite IH.
Qed.

Lemma CustStringSliceRemove_found slice element index :
  first_index slice element = Some index →
  ∃ before after last,
    slice = before ++ element :: after
    ∧ (element ∉ before)
    ∧ List.last slice element = last
    ∧ CustStringSliceRemove slice element
      = (before ++ after, before ++ after ++ [last]).
Proof.
  intros Hf. destruct (first_index_Some _ _ _ Hf) as (Heq & Hnot & Hlen).
  exists (take index slice), (drop (S index) slice), (List.last slice element).
  split; [done|]. split; [done|]. split; [done|].
  unfold CustStringSliceRemove. rewrite Hf. cbn zeta. unfold append_in_place.
  assert (Hlength : index + length (drop (S index) slice) = length slice - 1).
  { apply (f_equal length) in Heq. rewrite List.length_app, Hlen in Heq.
    cbn in Heq. lia. }
  assert (Hne : slice ≠ []) by (intros ->; done).
  rewrite Hlength, (drop_to_last slice element Hne). f_equal.
  rewrite app_assoc. apply take_app_length'.
  rewrite List.length_app, Hlen. lia.
Qed.

(** [CustStringSliceRemove] returns the slice without the first occurrence
    of the element, and the slice itself when the element does not occur. *)
Theorem CustStringSliceRemove_result slice element :
  (element ∉ slice → (CustStringSliceRemove slice element).1 = slice)
  ∧ (element ∈ slice →
     ∃ before after,
       slice = before ++ element :: after
       ∧ (element ∉ before)
       ∧ (CustStringSliceRemove slice element).1 = before ++ after).
Proof.
  split.
  - intros Hnot. apply first_index_None in Hnot.
    unfold CustStringSliceRemove. by rewrite Hnot.
  - intros Hin. destruct (first_index slice element) as [index|] eqn:Hf.
    + destruct (CustStringSliceRemove_found _ _ _ Hf)
        as (before & after & last & Heq & Hnot & _ & Hrem).
      exists before, after. by rewrite Hrem.
    + by apply first_index_None in Hf.
Qed.

Lemma CustStringSliceRemove_result_witness :
  ∃ before after,
    ["a"; "b"; "c"; "b"] = before ++ "b" :: after
    ∧ ("b" ∉ before)
    ∧ (CustStringSliceRemove ["a"; "b"; "c"; "b"] "b").1 = before ++ after.
Proof.
  apply (proj2 (CustStringSliceRemove_result ["a"; "b"; "c"; "b"] "b")).
  apply list_elem_of_In. cbn. auto.
Defined.

(** The removal works in the array of its argument: after a removal the
    caller's slice has its old length and holds the returned slice followed
    by a second copy of its last element. *)
Theorem CustStringSliceRemove_aliasing slice element :
  element ∈ slice →
  let '(result, backing) := CustStringSliceRemove slice element in
  backing = result ++ [List.last slice element]
  ∧ length backing = length slice
  ∧ length result = length slice - 1.
Proof.
  intros Hin. destruct (first_index slice element) as [index|] eqn:Hf.
  - destruct (CustStringSliceRemove_found _ _ _ Hf)
      as (before & after & last & Heq & Hnot & Hlast & Hrem).
    rewrite Hrem. subst last.
    pose proof (f_equal length Heq) as Hl. rewrite List.length_app in Hl. cbn in Hl.
    split; [by rewrite app_assoc|]. rewrite !List.length_app. cbn. lia.
  - by apply first_index_None in Hf.
Qed.

Lemma CustStringSliceRemove_aliasing_witness :
  ["a"; "c"; "d"; "d"] = ["a"; "c"; "d"] ++ [List.last ["a"; "b"; "c"; "d"] "b"]
  ∧ length ["a"; "c"; "d"; "d"] = length ["a"; "b"; "c"; "d"]
  ∧ length ["a"; "c"; "d"] = length ["a"; "b"; "c"; "d"] - 1.
Proof.
  apply (CustStringSliceRemove_aliasing ["a"; "b"; "c"; "d"] "b").
  apply list_elem_of_In. cbn. auto.
Defined.

(** [CustStringSliceHas] decides membership. *)
Theorem CustStringSliceHas_iff slice element :
  CustStringSliceHas slice element = true ↔ element ∈ slice.
Proof.
  induction slice as [|value rest IH]; cbn [CustStringSliceHas].
  - split; [done | by intros ?%elem_of_nil].
  - rewrite elem_of_cons.
    destruct (String.eqb_spec element value) as [->|Hne].
    + split; auto.
    + rewrite IH. split; [auto|]. by intros [?|?].
Qed.

(** ** Discovery helpers *)

Lemma CustGetDbs_loop (orig : list string) n :
  ∀ (k : nat) (arr : list string) (i : nat),
    k + n = length orig →
    length arr = length orig →
    (i ≤ k)%nat →
    take i arr = filter user_db (take k orig) →
    drop k arr = drop k orig →
    take (foldl CustGetDbs_step (arr, i) (seq k n)).2
         (foldl CustGetDbs_step (arr, i) (seq k n)).1
    = filter user_db orig.
Proof.
  induction n as [|n IH]; intros k arr i Hk Hlen Hi Htake Hdrop.
  - cbn. rewrite Htake, take_ge; [done | lia].
  - cbn [seq foldl]. unfold CustGetDbs_step at 2 4.
    assert (Hlook : arr !! k = orig !! k).
    { pose proof (lookup_drop arr k 0) as H1. pose proof (lookup_drop orig k 0) as H2.
      rewrite Nat.add_0_r in H1, H2. by rewrite <- H1, <- H2, Hdrop. }
    destruct (lookup_lt_is_Some_2 orig k ltac:(lia)) as [db Hdb].
    rewrite Hlook, Hdb.
    assert (Hnext : drop (S k) arr = drop (S k) orig).
    { replace (S k) with (k + 1) by lia. by rewrite <- !drop_drop, Hdrop. }
    pose proof (take_S_r orig k db Hdb) as Hstep.
    destruct (String.eqb_spec db "local") as [Hl|Hl];
      [| destruct (String.eqb_spec db "admin") as [Ha|Ha]]; cbn [negb andb].
    + apply IH; [lia | done | lia | | done].
      rewrite Hstep, filter_app, filter_cons_False, filter_nil, app_nil_r; [done|].
      by intros [? _].
    + apply IH; [lia | done | lia | | done].
      rewrite Hstep, filter_app, filter_cons_False, filter_nil, app_nil_r; [done|].
      by intros [_ ?].
    + apply IH; [lia | by rewrite length_insert | lia | |].
      * rewrite Hstep, filter_app, filter_cons_True, filter_nil by done.
        rewrite (take_S_r _ i db); [| apply list_lookup_insert_eq; lia].
        rewrite take_insert_ge by lia. by rewrite Htake.
      * rewrite drop_insert_lt by lia. done.
Qed.

(** [CustGetDbs] returns the database names other than [local] and [admin],
    in the order of the listing: the compaction in place never overwrites a
    name it has yet to read. *)
Theorem CustGetDbs_filters dbs :
  CustGetDbs (inr dbs) = Ok (filter user_db dbs).
Proof.
  unfold CustGetDbs.
  pose proof (CustGetDbs_loop dbs (length dbs) 0 dbs 0) as H.
  destruct (foldl CustGetDbs_step (dbs, 0) (seq 0 (length dbs))) as [dbs' i].
  cbn [fst snd] in H. rewrite H; [done | lia | done | lia | done | done].
Qed.



(** ** The status reader *)

Lemma primary_optime_cons member rest :
  primary_optime (member :: rest) =
  match member with
  | BM m =>
      if is_PRIMARY m then
        match index_key m "optime" with
        | BNull => Panic "invalid memory address or nil pointer dereference"
        | BM optime => ts ← assert_Timestamp (index_key optime "ts"); Ok (inl ts)
        | optime => ts ← assert_Timestamp optime; Ok (inl ts)
        end
      else primary_optime rest
  | _ => Panic "interface conversion: not primitive.M"
  end.
Proof.
  destruct member; try reflexivity.
  cbn [primary_optime assert_M mbind Res_bind res_bind]. unfold is_PRIMARY.
  destruct (index_key m "stateStr"); try reflexivity.
  repeat (match goal with
          | |- context [match ?x with _ => _ end] => is_var x; destruct x; cbn
          end; try reflexivity).
Qed.

Lemma primary_optime_skip before rest :
  Forall (λ m, is_PRIMARY m = false) before →
  primary_optime ((BM <$> before) ++ rest) = primary_optime rest.
Proof.
  induction 1 as [|m before Hm _ IH]; [done|].
  rewrite fmap_cons. cbn [app]. by rewrite primary_optime_cons, Hm.
Qed.

(** With no member in state [PRIMARY] the reader returns its error, provided
    every member is a document. *)
Theorem CustGetLatestOplogTimestamp_no_primary res members :
  index_key res "members" = BA (BM <$> members) →
  Forall (λ m, is_PRIMARY m = false) members →
  CustGetLatestOplogTimestamp (inr res) = Ok (inr "no oplog timestamp status").
Proof.
  intros Hres Hall. unfold CustGetLatestOplogTimestamp. rewrite Hres.
  unfold mbind, Res_bind. cbn [assert_A res_bind].
  rewrite <- (app_nil_r (BM <$> members)).
  by rewrite (primary_optime_skip members [] Hall).
Qed.

Lemma CustGetLatestOplogTimestamp_no_primary_witness :
  CustGetLatestOplogTimestamp
    (inr [("set", BString "rs0");
          ("members", BA (BM <$> [[("stateStr", BString "SECONDARY")];
                                  [("stateStr", BString "ARBITER")]]))])
  = Ok (inr "no oplog timestamp status").
Proof.
  apply (CustGetLatestOplogTimestamp_no_primary _
           [[("stateStr", BString "SECONDARY")]; [("stateStr", BString "ARBITER")]]).
  - reflexivity.
  - repeat constructor.
Defined.

(** The reader returns the optime of the first member in state [PRIMARY],
    in either format: a document with a [ts] field, or the timestamp itself.
    Members after it are not inspected. *)
Theorem CustGetLatestOplogTimestamp_first_primary res before m after ts :
  index_key res "members" = BA ((BM <$> before) ++ BM m :: after) →
  Forall (λ m', is_PRIMARY m' = false) before →
  is_PRIMARY m = true →
  (index_key m "optime" = BTimestamp ts
   ∨ ∃ optime, index_key m "optime" = BM optime
               ∧ index_key optime "ts" = BTimestamp ts) →
  CustGetLatestOplogTimestamp (inr res) = Ok (inl ts).
Proof.
  intros Hres Hbefore Hm Hoptime.
  unfold CustGetLatestOplogTimestamp. rewrite Hres.
  unfold mbind, Res_bind. cbn [assert_A res_bind].
  rewrite (primary_optime_skip before _ Hbefore), primary_optime_cons, Hm.
  destruct Hoptime as [->|(optime & -> & Hts)]; [done|]. by rewrite Hts.
Qed.

Lemma CustGetLatestOplogTimestamp_first_primary_witness :
  CustGetLatestOplogTimestamp
    (inr [("members",
           BA ((BM <$> [[("stateStr", BString "SECONDARY")]])
               ++ BM [("stateStr", BString "PRIMARY");
                      ("optime", BTimestamp (primitive.mkTimestamp 9 3))]
               :: [BNull]))])
  = Ok (inl (primitive.mkTimestamp 9 3)).
Proof.
  apply (CustGetLatestOplogTimestamp_first_primary _
           [[("stateStr", BString "SECONDARY")]]
           [("stateStr", BString "PRIMARY");
            ("optime", BTimestamp (primitive.mkTimestamp 9 3))]
           [BNull]).
  - reflexivity.
  - repeat constructor.
  - reflexivity.
  - left. reflexivity.
Defined.

(** ** The namespace of an entry *)

Lemma SplitN_dot_first s a :
  at_index (SplitN s "." 2) 0 = Ok a → Contains a "." = false.
Proof.
  destruct (Contains s ".") eqn:Hs.
  - destruct (Contains_dot_decompose s Hs) as (x & y & -> & Hx).
    rewrite (SplitN_dot_split x y Hx). by intros [= <-].
  - rewrite (SplitN_dot_none s Hs). by intros [= <-].
Qed.

Lemma CustGetOplogNs_db_no_dot oplog : Contains (CustGetOplogNs oplog).1 "." = false.
Proof.
  unfold CustGetOplogNs, CustGetOplogNs_body.
  destruct (negb _); [|done].
  unfold mbind, Res_bind.
  destruct (assert_D (Oplog.O oplog)) as [o| |]; [|done..]. cbn [res_bind].
  destruct (String.eqb (Oplog.OP oplog) "i" && negb (exists_key o "_id")).
  - destruct (assert_string _) as [ns| |]; [|done..]. cbn [res_bind].
    destruct (at_index (SplitN ns "." 2) 0) as [db| |] eqn:Hdb; [|done..].
    cbn [res_bind]. destruct (at_index _ 1); [|done..].
    cbn. by apply SplitN_dot_first in Hdb.
  - cbn [res_bind].
    destruct (at_index (SplitN _ "." 2) 0) as [db| |] eqn:Hdb; [|done..].
    cbn [res_bind]. destruct (at_index _ 1); [|done..].
    cbn. by apply SplitN_dot_first in Hdb.
Qed.

(** The namespace computed for an entry always splits at a dot that follows
    a dot-free database name, whatever the entry holds; [CustFilter] can
    therefore fail in the replay only through a table value without a dot. *)
Theorem effective_ns_splits oplog nsnsMap :
  Contains (CustGetOplogNs oplog).1 "." = false
  ∧ SplitN (effective_ns oplog) "." 2 = [(CustGetOplogNs oplog).1; (CustGetOplogNs oplog).2]
  ∧ match nsnsMap !! effective_ns oplog with
    | Some d =>
        Contains d "." = true → is_Ok (CustFilter (effective_ns oplog) nsnsMap) = true
    | None =>
        CustFilter (effective_ns oplog) nsnsMap
        = Ok (mkNsMap (CustGetOplogNs oplog).1 (CustGetOplogNs oplog).2
                (CustGetOplogNs oplog).1 (CustGetOplogNs oplog).2)
    end.
Proof.
  pose proof (CustGetOplogNs_db_no_dot oplog) as Hdb. unfold effective_ns.
  split; [done|]. split; [by apply SplitN_dot_split|].
  destruct (nsnsMap !! _) as [d|] eqn:Hlook.
  - intros Hd. rewrite (CustFilter_mapped _ _ d nsnsMap Hdb Hlook).
    destruct (Contains_dot_decompose d Hd) as (x & y & -> & Hx).
    by rewrite (SplitN_dot_split x y Hx).
  - by apply CustFilter_unmapped.
Qed.

Lemma CustGetOplogNs_split oplog d db coll :
  Oplog.O oplog = BD d →
  Oplog.NS oplog ≠ "" →
  Contains db "." = false →
  (if String.eqb (Oplog.OP oplog) "i" && negb (exists_key d "_id")
   then index_key d "ns" = BString (db +:+ "." +:+ coll)
   else Oplog.NS oplog = db +:+ "." +:+ coll) →
  CustGetOplogNs oplog = (db, coll).
Proof.
  intros HO HNS Hdb Hns. unfold CustGetOplogNs, CustGetOplogNs_body.
  destruct (String.eqb_spec (Oplog.NS oplog) ""); [done|]. cbn [negb].
  rewrite HO. unfold mbind, Res_bind. cbn [assert_D res_bind].
  destruct (String.eqb (Oplog.OP oplog) "i" && negb (exists_key d "_id")).
  - rewrite Hns. cbn [assert_string res_bind].
    by rewrite (SplitN_dot_split db coll Hdb).
  - rewrite Hns. cbn [res_bind]. by rewrite (SplitN_dot_split db coll Hdb).
Qed.

(** An ordinary entry is addressed by its own [ns], an index build (an [i]
    entry whose payload has no [_id]) by the [ns] field of its payload. *)
Theorem CustGetOplogNs_effective oplog d db coll :
  Oplog.O oplog = BD d →
  Oplog.NS oplog ≠ "" →
  Contains db "." = false →
  (if String.eqb (Oplog.OP oplog) "i" && negb (exists_key d "_id")
   then index_key d "ns" = BString (db +:+ "." +:+ coll)
   else Oplog.NS oplog = db +:+ "." +:+ coll) →
  CustGetOplogNs oplog = (db, coll).
Proof. apply CustGetOplogNs_split. Qed.

Lemma CustGetOplogNs_effective_witness :
  CustGetOplogNs
    (Oplog.mkOPLOG (primitive.mkTimestamp 50 1) 7 0 2 "i" "d.system.indexes" BNull
       (BD [("key", BD [("x", BInt32 1)]); ("name", BString "x_1");
            ("ns", BString "d.c.e")]))
  = ("d", "c.e").
Proof.
  apply (CustGetOplogNs_effective _
           [("key", BD [("x", BInt32 1)]); ("name", BString "x_1");
            ("ns", BString "d.c.e")]).
  - reflexivity.
  - discriminate.
  - reflexivity.
  - reflexivity.
Defined.

(** An entry without namespace, with a payload that is no document, or (not
    being an index build) with a namespace without dot, gets the empty pair:
    the deferred [recover] swallows the panic. *)
Theorem CustGetOplogNs_degenerate oplog :
  Oplog.NS oplog = ""
  ∨ (∀ d, Oplog.O oplog ≠ BD d)
  ∨ (Contains (Oplog.NS oplog) "." = false
     ∧ ∀ d, Oplog.O oplog = BD d →
            String.eqb (Oplog.OP oplog) "i" && negb (exists_key d "_id") = false) →
  CustGetOplogNs oplog = ("", "").
Proof.
  unfold CustGetOplogNs, CustGetOplogNs_body.
  destruct (String.eqb_spec (Oplog.NS oplog) "") as [HNS|HNS]; [done|]. cbn [negb].
  intros [?|[HO|[Hdot Hnot]]]; [done| |].
  - destruct (Oplog.O oplog) as [| | | | | | | |d| |]; try done. by destruct (HO d).
  - destruct (Oplog.O oplog) as [| | | | | | | |d| |]; try done.
    unfold mbind, Res_bind. cbn [assert_D res_bind].
    rewrite (Hnot d eq_refl). cbn [res_bind].
    by rewrite (SplitN_dot_none _ Hdot).
Qed.

Lemma CustGetOplogNs_degenerate_witness :
  CustGetOplogNs
    (Oplog.mkOPLOG (primitive.mkTimestamp 50 1) 7 0 2 "u" "d.c" (BD [("_id", BInt32 1)])
       BNull)
  = ("", "").
Proof.
  apply CustGetOplogNs_degenerate. right. left. discriminate.
Defined.

(** ** The replay, whatever the destination answers *)

Section SameRequests.
Context {St1 St2 : Type} `{!Driver St1} `{!Driver St2}.

Lemma same_ret {A} (a : A) : same_requests (mret a : M St1 A) (mret a : M St2 A).
Proof. by intros w1 w2 Ht. Qed.

Lemma same_lift {A} (r : Res A) : same_requests (lift r : M St1 A) (lift r : M St2 A).
Proof. by intros w1 w2 Ht. Qed.

Lemma same_fatal {A} msg : same_requests (fatal msg : M St1 A) (fatal msg : M St2 A).
Proof. by intros w1 w2 Ht. Qed.

Lemma same_read r : same_requests (read r : M St1 unit) (read r : M St2 unit).
Proof. intros w1 w2 Ht. unfold read. cbn. by rewrite Ht. Qed.

Lemma same_bind {A B} (m1 : M St1 A) (m2 : M St2 A) (k1 : A → M St1 B) (k2 : A → M St2 B) :
  same_requests m1 m2 → (∀ a, same_requests (k1 a) (k2 a)) →
  same_requests (m1 ≫= k1) (m2 ≫= k2).
Proof.
  intros Hm Hk w1 w2 Ht. unfold mbind, M_bind, bind.
  destruct (Hm w1 w2 Ht) as [Hr Ht']. 
  destruct (m1 w1) as [r1 w1'], (m2 w2) as [r2 w2']. cbn in Hr, Ht'. subst r2.
  destruct r1 as [a|e|e]; [by apply Hk | done | done].
Qed.

(** A call whose answer is dropped. *)
Lemma same_call_dropped {B} r (k1 : M St1 B) (k2 : M St2 B) :
  same_requests k1 k2 →
  same_requests (call r ≫= λ _, k1) (call r ≫= λ _, k2).
Proof.
  intros Hk w1 w2 Ht. unfold mbind, M_bind, bind, call.
  destruct (exec r (dst w1)) as [s1 a1], (exec r (dst w2)) as [s2 a2].
  apply Hk. cbn. by rewrite Ht.
Qed.

Lemma same_forMi {A} (b1 : nat → A → M St1 unit) (b2 : nat → A → M St2 unit) l :
  (∀ k x, same_requests (b1 k x) (b2 k x)) →
  ∀ k, same_requests (forMi b1 k l) (forMi b2 k l).
Proof.
  intros Hb. induction l as [|x l IH]; intros k; cbn [forMi].
  - apply same_ret.
  - apply same_bind; [apply Hb | intros _; apply IH].
Qed.

Lemma same_apply_op oplog nsStruct :
  same_requests (apply_op (St:=St1) oplog nsStruct) (apply_op (St:=St2) oplog nsStruct).
Proof.
  unfold apply_op.
  repeat first
    [ apply same_call_dropped
    | apply same_ret
    | apply same_lift
    | apply same_bind; [| intros ?]
    | match goal with |- same_requests (if ?b then _ else _) _ => destruct b end ].
Qed.

Lemma same_replay_step src ns endTS nsSlice nsnsMap k e :
  same_requests (replay_step (St:=St1) src ns endTS nsSlice nsnsMap k e)
                (replay_step (St:=St2) src ns endTS nsSlice nsnsMap k e).
Proof.
  unfold replay_step. destruct (typed e) as [oplog|]; [|apply same_fatal].
  apply same_bind.
  - destruct (_ && _); [|apply same_ret].
    apply same_bind; [apply same_read | intros _].
    apply same_bind; [apply same_lift | intros _; apply same_ret].
  - intros _. destruct (CustGetOplogNs oplog) as [db coll].
    destruct (CustContainsNs _ _); [|apply same_ret].
    apply same_bind; [apply same_lift | intros nsStruct; apply same_apply_op].
Qed.

(** The replay is best effort per entry: how a run ends and every request it
    issues, to the source and to the destination, are the same whatever the
    destination answers and whatever state it is in. *)
Theorem CustReplayOplog_ignores_answers src startTS endTS srcOplogNamespace
    nsSlice nsnsMap (s1 : St1) (s2 : St2) :
  let r1 := run (CustReplayOplog src startTS endTS srcOplogNamespace nsSlice nsnsMap) s1 in
  let r2 := run (CustReplayOplog src startTS endTS srcOplogNamespace nsSlice nsnsMap) s2 in
  r1.1 = r2.1 ∧ trace r1.2 = trace r2.2.
Proof.
  cbn zeta. unfold run.
  assert (H : same_requests
    (CustReplayOplog (St:=St1) src startTS endTS srcOplogNamespace nsSlice nsnsMap)
    (CustReplayOplog (St:=St2) src startTS endTS srcOplogNamespace nsSlice nsnsMap));
    [|by apply H].
  unfold CustReplayOplog.
  destruct (negb _); [apply same_fatal|].
  do 2 (apply same_bind; [apply same_lift | intros ?]).
  apply same_bind; [apply same_read | intros _].
  destruct (read_error src (FindOne _ _)); [apply same_fatal|].
  destruct (find_one _ _); [|apply same_fatal].
  apply same_bind; [apply same_lift | intros ts].
  destruct (negb _); [apply same_fatal|].
  apply same_bind; [apply same_read | intros _].
  destruct (read_error src _); [apply same_fatal|].
  apply same_forMi. intros k x. apply same_replay_step.
Qed.

End SameRequests.

(** ** What the replay sends, entry by entry *)

Section Dispatch.
Context {St : Type} `{!Driver St} (src : Source).

Lemma dst_requests_snoc_dst t r : dst_requests (t ++ [Dst r]) = dst_requests t ++ [r].
Proof. by rewrite dst_requests_app. Qed.

Lemma dst_requests_snoc_src t r : dst_requests (t ++ [Src r]) = dst_requests t.
Proof. rewrite dst_requests_app. cbn. by rewrite app_nil_r. Qed.

Lemma apply_op_requests oplog nsStruct w :
  ∃ rs,
    dst_requests (trace (apply_op oplog nsStruct w).2) = dst_requests (trace w) ++ rs
    ∧ (rs = []
       ∨ ∃ r, rs = [r] ∧ dispatched oplog r
              ∧ (target r).1 = DstDb nsStruct
              ∧ ∀ c, (target r).2 = Some c → c = DstColl nsStruct).
Proof.
  unfold apply_op.
  destruct (String.eqb_spec (Oplog.OP oplog) "i") as [Hi|_];
    [| destruct (String.eqb_spec (Oplog.OP oplog) "u") as [Hu|_];
       [| destruct (String.eqb_spec (Oplog.OP oplog) "d") as [Hd|_];
          [| destruct (String.eqb_spec (Oplog.OP oplog) "c") as [Hc|_]]]].
  - unfold mbind, M_bind, bind, lift, call, mret, M_ret, ret.
    destruct (Oplog.O oplog) as [| | | | | | | |d| |] eqn:HO; cbn [assert_D];
      try (exists []; rewrite app_nil_r; by auto).
    destruct (exists_key d "_id") eqn:Hid.
    + destruct (exec _ (dst w)) as [s' a]. cbn [snd trace].
      eexists. split; [apply dst_requests_snoc_dst|]. right. eexists.
      split; [done|]. cbn. rewrite HO. split_and!; try done.
      * exists d. split; [done|]. left. done.
      * by intros c [= <-].
    + destruct (index_key d "name") as [| | | | |name| | | | |] eqn:Hname;
        cbn [assert_string];
        try (exists []; rewrite app_nil_r; by auto).
      destruct (exec _ (dst w)) as [s' a]. cbn [snd trace].
      eexists. split; [apply dst_requests_snoc_dst|]. right. eexists.
      split; [done|]. cbn. split_and!; try done.
      * by exists d, name.
      * by intros c [= <-].
  - unfold mbind, M_bind, bind, lift, call, mret, M_ret, ret.
    destruct (Oplog.O oplog) as [| | | | | | | |d| |] eqn:HO; cbn [assert_D];
      try (exists []; rewrite app_nil_r; by auto).
    destruct (exists_key d "$set") eqn:Hset.
    + destruct (exec _ (dst w)) as [s' a]. cbn [snd trace].
      eexists. split; [apply dst_requests_snoc_dst|]. right. eexists.
      split; [done|]. cbn. rewrite HO. split_and!; try done.
      * by exists d.
      * by intros c [= <-].
    + destruct (exec _ (dst w)) as [s' a]. cbn [snd trace].
      eexists. split; [apply dst_requests_snoc_dst|]. right. eexists.
      split; [done|]. cbn. rewrite HO. split_and!; try done.
      * exists d. split; [done|]. right. done.
      * by intros c [= <-].
  - unfold mbind, M_bind, bind, lift, call, mret, M_ret, ret.
    destruct (exec _ (dst w)) as [s' a]. cbn [snd trace].
    eexists. split; [apply dst_requests_snoc_dst|]. right. eexists.
    split; [done|]. cbn. split_and!; try done. by intros c [= <-].
  - unfold mbind, M_bind, bind, lift, call, mret, M_ret, ret.
    destruct (exec _ (dst w)) as [s' a]. cbn [snd trace].
    eexists. split; [apply dst_requests_snoc_dst|]. right. eexists.
    split; [done|]. cbn. split_and!; done.
  - exists []. rewrite app_nil_r. split; [|by left].
    by destruct (String.eqb (Oplog.OP oplog) "n").
Qed.

Lemma replay_step_requests srcOplogNamespace endTS nsSlice nsnsMap k e w :
  ∃ rs,
    dst_requests (trace (replay_step src srcOplogNamespace endTS nsSlice nsnsMap k e w).2)
    = dst_requests (trace w) ++ rs
    ∧ (rs = []
       ∨ ∃ r oplog nsStruct,
           rs = [r]
           ∧ typed e = Some oplog
           ∧ dispatched oplog r
           ∧ CustContainsNs (effective_ns oplog) nsSlice = true
           ∧ CustFilter (effective_ns oplog) nsnsMap = Ok nsStruct
           ∧ (target r).1 = DstDb nsStruct
           ∧ ∀ c, (target r).2 = Some c → c = DstColl nsStruct).
Proof.
  unfold replay_step.
  destruct (typed e) as [oplog|] eqn:Hty;
    [| exists []; rewrite app_nil_r; by auto].
  unfold mbind at 1, M_bind at 1, bind at 1.
  destruct (heartbeat_reads_only (St:=St) src
              (String.eqb srcOplogNamespace local_oplog_rs && is_zero endTS) k w)
    as [_ Hhb].
  match type of Hhb with
  | context [trace (?x).2] => destruct x as [[[]|msg|msg] w1]
  end; cbn [snd] in Hhb; rewrite <- Hhb;
    [| exists []; rewrite app_nil_r; by auto..].
  unfold effective_ns. destruct (CustGetOplogNs oplog) as [db coll] eqn:Hns.
  destruct (CustContainsNs _ nsSlice) eqn:Hadmit;
    [| exists []; rewrite app_nil_r; by auto].
  unfold mbind at 1, M_bind at 1, bind at 1, lift at 1.
  destruct (CustFilter _ nsnsMap) as [nsStruct|msg|msg] eqn:Hmap;
    [| exists []; rewrite app_nil_r; by auto..].
  destruct (apply_op_requests oplog nsStruct w1) as (rs & Hrs & Hcase).
  exists rs. split; [done|].
  destruct Hcase as [->|(r & -> & Hd & Ht1 & Ht2)]; [by left|].
  right. exists r, oplog, nsStruct. by rewrite Hns.
Qed.

(** One iteration of the replay issues at most one request against the
    destination.  The request is the one the entry's [op] and payload select
    (never an insert), and it is addressed to the destination side of the
    mapping of the entry's namespace, which the filter list admits. *)
Theorem replay_step_dispatch srcOplogNamespace endTS nsSlice nsnsMap k e w :
  ∃ rs,
    dst_requests (trace (replay_step src srcOplogNamespace endTS nsSlice nsnsMap k e w).2)
    = dst_requests (trace w) ++ rs
    ∧ (rs = []
       ∨ ∃ r oplog nsStruct,
           rs = [r]
           ∧ typed e = Some oplog
           ∧ dispatched oplog r
           ∧ CustContainsNs (effective_ns oplog) nsSlice = true
           ∧ CustFilter (effective_ns oplog) nsnsMap = Ok nsStruct
           ∧ (target r).1 = DstDb nsStruct
           ∧ ∀ c, (target r).2 = Some c → c = DstColl nsStruct).
Proof. apply replay_step_requests. Qed.

Lemma replay_loop_bound ns endTS nsSlice nsnsMap l :
  ∀ k w,
    (length (dst_requests
               (trace (forMi (replay_step src ns endTS nsSlice nsnsMap) k l w).2))
     ≤ length (dst_requests (trace w)) + length l)%nat.
Proof.
  induction l as [|e l IH]; intros k w; cbn [forMi length].
  - cbn. lia.
  - unfold mbind, M_bind, bind.
    destruct (replay_step_requests ns endTS nsSlice nsnsMap k e w) as (rs & Hrs & Hcase).
    assert (Hlen : (length rs ≤ 1)%nat).
    { destruct Hcase as [->|(r & ? & ? & -> & _)]; cbn; lia. }
    destruct (replay_step _ _ _ _ _ k e w) as [[[]|msg|msg] w1]; cbn [snd] in *.
    + specialize (IH (S k) w1). rewrite Hrs, List.length_app in IH. lia.
    + rewrite Hrs, List.length_app. lia.
    + rewrite Hrs, List.length_app. lia.
Qed.

(** A run of the replay, split at the opening of its cursor: it either ends
    before, having issued nothing against the destination, or it is the loop
    over the delivered entries, started with the destination untouched. *)
Lemma CustReplayOplog_loop startTS endTS srcOplogNamespace nsSlice nsnsMap s db coll :
  SplitN (if String.eqb srcOplogNamespace "" then local_oplog_rs
          else srcOplogNamespace) "." 2 = [db; coll] →
  let m := CustReplayOplog src startTS endTS srcOplogNamespace nsSlice nsnsMap in
  (dst_requests (trace (run m s).2) = [] ∧ is_Ok (run m s).1 = false)
  ∨ ∃ w0, dst w0 = s ∧ dst_requests (trace w0) = []
          ∧ run m s
            = forMi (replay_step src
                       (if String.eqb srcOplogNamespace "" then local_oplog_rs
                        else srcOplogNamespace) endTS nsSlice nsnsMap) 0
                (find_all startTS (upper_bound endTS)
                   (contents src (mkCollection db coll))) w0.
Proof.
  intros Hsplit. cbn zeta. unfold run, CustReplayOplog. rewrite Hsplit. cbn [length Nat.eqb negb].
  unfold mbind, M_bind, bind, lift, read, fatal. cbn [at_index lookup list_lookup dst trace app].
  destruct (read_error src (FindOne _ _)); [by left|].
  destruct (find_one _ _); [|by left].
  destruct (assert_Timestamp _); [|by left..].
  destruct (negb _); [by left|].
  destruct (read_error src _); [by left|].
  right. eexists. split; [|split; [|reflexivity]]; done.
Qed.

(** A replay issues at most as many requests against the destination as its
    cursor delivers entries. *)
Theorem CustReplayOplog_request_bound startTS endTS srcOplogNamespace nsSlice nsnsMap
    s db coll :
  SplitN (if String.eqb srcOplogNamespace "" then local_oplog_rs
          else srcOplogNamespace) "." 2 = [db; coll] →
  (length (dst_requests
             (trace (run (CustReplayOplog src startTS endTS srcOplogNamespace
                            nsSlice nsnsMap) s).2))
   ≤ length (find_all startTS (upper_bound endTS)
               (contents src (mkCollection db coll))))%nat.
Proof.
  intros Hsplit.
  destruct (CustReplayOplog_loop startTS endTS srcOplogNamespace nsSlice nsnsMap s
              db coll Hsplit) as [[-> _]|(w0 & _ & Hw0 & ->)].
  - cbn. lia.
  - pose proof (replay_loop_bound
                  (if String.eqb srcOplogNamespace "" then local_oplog_rs
                   else srcOplogNamespace) endTS nsSlice nsnsMap
                  (find_all startTS (upper_bound endTS)
                     (contents src (mkCollection db coll))) 0 w0) as H.
    rewrite Hw0 in H. cbn in H. done.
Qed.

End Dispatch.

Lemma CustReplayOplog_request_bound_witness :
  (length (dst_requests
             (trace (run (St:=Script)
                       (CustReplayOplog
                          (source_with "syncoplog" "oplog.rs"
                             [oplog_entry (primitive.mkTimestamp 100 1) "i" "d.c" BNull
                                (BD [("_id", BInt32 1)]);
                              oplog_entry (primitive.mkTimestamp 101 1) "n" "" BNull
                                (BD [("msg", BString "periodic noop")])])
                          (primitive.mkTimestamp 100 1) (primitive.mkTimestamp 0 0)
                          "syncoplog.oplog.rs" ["d.c"] ∅) []).2))
   ≤ length (find_all (primitive.mkTimestamp 100 1)
               (upper_bound (primitive.mkTimestamp 0 0))
               (contents
                  (source_with "syncoplog" "oplog.rs"
                     [oplog_entry (primitive.mkTimestamp 100 1) "i" "d.c" BNull
                        (BD [("_id", BInt32 1)]);
                      oplog_entry (primitive.mkTimestamp 101 1) "n" "" BNull
                        (BD [("msg", BString "periodic noop")])])
                  (mkCollection "syncoplog" "oplog.rs"))))%nat.
Proof.
  apply (CustReplayOplog_request_bound (St:=Script)). reflexivity.
Defined.

(** ** Commands and the mapping table *)

Section Commands.
Context {St : Type} `{!Driver St} (src : Source).

(** A command entry of [db.$cmd] that the filter admits is run against the
    database [db] itself unless the table has the key [db.$cmd]: entries of
    the table for the collections of [db] do not move its commands. *)
Theorem replay_step_command srcOplogNamespace endTS nsSlice nsnsMap k e w oplog db cmd :
  typed e = Some oplog →
  Oplog.OP oplog = "c" →
  Oplog.NS oplog = db +:+ ".$cmd" →
  Contains db "." = false →
  Oplog.O oplog = BD cmd →
  CustContainsNs (db +:+ ".$cmd") nsSlice = true →
  nsnsMap !! (db +:+ ".$cmd") = None →
  let r := replay_step src srcOplogNamespace endTS nsSlice nsnsMap k e w in
  r.1 = Ok tt →
  dst_requests (trace r.2) = dst_requests (trace w) ++ [RunCommand db (BD cmd)].
Proof.
  intros Hty Hop HNS Hdb HO Hadmit Hnone r.
  assert (Hns : CustGetOplogNs oplog = (db, "$cmd")).
  { apply (CustGetOplogNs_split oplog cmd db "$cmd" HO); [|done|].
    - rewrite HNS. by destruct db.
    - by rewrite Hop. }
  change (db +:+ ".$cmd") with (db +:+ "." +:+ "$cmd") in Hadmit, Hnone.
  assert (Hr : r = replay_step src srcOplogNamespace endTS nsSlice nsnsMap k e w)
    by done.
  clearbody r. unfold replay_step in Hr. rewrite Hty, Hns, Hadmit in Hr.
  rewrite (CustFilter_unmapped db "$cmd" nsnsMap Hdb Hnone) in Hr.
  unfold mbind at 1, M_bind at 1, bind at 1 in Hr.
  destruct (heartbeat_reads_only (St:=St) src
              (String.eqb srcOplogNamespace local_oplog_rs && is_zero endTS) k w)
    as [_ Hhb].
  match type of Hhb with
  | context [trace (?x).2] => destruct x as [[[]|msg|msg] w1]
  end; cbn [snd] in Hhb; [|by subst r..].
  rewrite <- Hhb. unfold apply_op in Hr. rewrite Hop, HO in Hr.
  cbn [String.eqb Ascii.eqb Bool.eqb andb] in Hr.
  unfold mbind, M_bind, bind, lift, call, mret, M_ret, ret in Hr. cbn [DstDb] in Hr.
  destruct (exec _ (dst w1)) as [s' a]. subst r. cbn [fst snd trace]. intros _.
  apply dst_requests_snoc_dst.
Qed.

(** ** The watermark of the staging writer *)

(** When every entry of [local.oplog.rs] is later than [startTS], the staging
    writer ends in [log.Fatalln] after its probe: nothing is staged and the
    tailing cursor is not opened. *)
Theorem CustSyncOplog_rolled_over startTS s :
  (∀ e, e ∈ contents src (mkCollection "local" "oplog.rs") →
        ∃ t, index_key (raw e) "ts" = BTimestamp t ∧ primitive.lt startTS t = true) →
  ∃ msg,
    run (CustSyncOplog src startTS) s
    = (Fatal msg,
       mkWorld s [Src (FindOne (mkCollection "local" "oplog.rs") startTS)]).
Proof.
  intros Hlater. unfold run, CustSyncOplog.
  unfold mbind, M_bind, bind, lift, read, fatal. cbn [dst trace app].
  destruct (read_error src (FindOne _ _)); [by eexists|].
  destruct (find_one _ _) as [first|] eqn:Hfind; [|by eexists].
  destruct (Hlater first (find_one_elem _ _ _ Hfind)) as (t & Hts & Hlt).
  rewrite Hts. cbn [assert_Timestamp]. rewrite (lt_not_Equal _ _ Hlt). cbn [negb].
  by eexists.
Qed.

End Commands.

Lemma replay_step_command_witness :
  dst_requests
    (trace (replay_step (St:=Script) (source_with "syncoplog" "oplog.rs" [])
              "syncoplog.oplog.rs" (primitive.mkTimestamp 0 0) ["d.c"]
              {[ "d.c" := "e.f" ]} 0
              (oplog_entry (primitive.mkTimestamp 200 1) "c" "d.$cmd" BNull
                 (BD [("drop", BString "c")]))
              (mkWorld [] [])).2)
  = dst_requests (trace (mkWorld (St:=Script) [] []))
    ++ [RunCommand "d" (BD [("drop", BString "c")])].
Proof.
  apply (replay_step_command (St:=Script) (source_with "syncoplog" "oplog.rs" [])
           "syncoplog.oplog.rs" (primitive.mkTimestamp 0 0) ["d.c"]
           {[ "d.c" := "e.f" ]} 0 _ (mkWorld [] [])
           (Oplog.mkOPLOG (primitive.mkTimestamp 200 1) 7 0 2 "c" "d.$cmd" BNull
              (BD [("drop", BString "c")])) "d" [("drop", BString "c")]);
    reflexivity.
Defined.

Lemma CustSyncOplog_rolled_over_witness :
  ∃ msg,
    run (St:=Script)
      (CustSyncOplog
         (source_with "local" "oplog.rs"
            [oplog_entry (primitive.mkTimestamp 500 1) "i" "d.c" BNull
               (BD [("_id", BInt32 1)])])
         (primitive.mkTimestamp 400 1)) []
    = (Fatal msg,
       mkWorld [] [Src (FindOne (mkCollection "local" "oplog.rs")
                          (primitive.mkTimestamp 400 1))]).
Proof.
  apply (CustSyncOplog_rolled_over (St:=Script)).
  intros e He. apply list_elem_of_singleton in He as ->.
  by exists (primitive.mkTimestamp 500 1).
Defined.

(** ** The index cloner, when it succeeds and when a field is ill-typed *)

Section IndexCloner.
Context {St : Type} `{!Driver St} (src : Source).

Lemma CustSyncIndex_step_Ok dstColl indexresult w w' :
  CustSyncIndex_step dstColl indexresult w = (Ok tt, w') →
  ∃ r, clone_request dstColl indexresult = Some r
       ∧ exec r (dst w) = (dst w', None)
       ∧ trace w' = trace w ++ [Dst r].
Proof.
  unfold CustSyncIndex_step, clone_request, mbind, M_bind, bind, lift, call.
  destruct (index_options indexresult) as [indexopt| |]; [|done..].
  destruct (exec _ (dst w)) as [s' [e|]] eqn:Hexec.
  - by destruct (Name indexopt).
  - intros [= <-]. by eexists.
Qed.

Lemma CustSyncIndex_loop_Ok dstColl l :
  ∀ w w',
    forM (CustSyncIndex_step dstColl) l w = (Ok tt, w') →
    dst_requests (trace w') = dst_requests (trace w) ++ omap (clone_request dstColl) l
    ∧ length (omap (clone_request dstColl) l) = length l
    ∧ serve (omap (clone_request dstColl) l) (dst w)
      = (dst w', replicate (length l) None).
Proof.
  unfold forM. induction l as [|ix l IH]; intros w w';
    cbn [foldM omap list_omap length replicate].
  - intros [= <-]. by rewrite app_nil_r.
  - unfold mbind at 1, M_bind at 1, bind at 1.
    destruct (CustSyncIndex_step dstColl ix w) as [[[]|msg|msg] w1] eqn:Hstep; [|done..].
    destruct (CustSyncIndex_step_Ok _ _ _ _ Hstep) as (r & Hr & Hexec & Htrace).
    intros Hrest. destruct (IH _ _ Hrest) as (Hreq & Hlen & Hserve).
    rewrite Hr. cbn [length serve]. rewrite Hexec, Hserve, Hlen, Hreq, Htrace.
    rewrite dst_requests_app. cbn. by rewrite <- app_assoc.
Qed.

(** A run of the index cloner that returns has sent one creation per
    enumerated specification, in the order of the enumeration, carrying the
    options read from it, and the destination answered none with an error. *)
Theorem CustSyncIndex_success srcDbName srcCollName dstDbName dstCollName s w' :
  run (CustSyncIndex src srcDbName srcCollName dstDbName dstCollName) s = (Ok tt, w') →
  let specs := indexes src (mkCollection srcDbName srcCollName) in
  let requests := omap (clone_request (mkCollection dstDbName dstCollName)) specs in
  dst_requests (trace w') = requests
  ∧ length requests = length specs
  ∧ serve requests s = (dst w', replicate (length specs) None).
Proof.
  unfold run, CustSyncIndex.
  unfold mbind at 1, M_bind at 1, bind at 1, read at 1. cbn [dst trace app].
  destruct (read_error src _); [done|].
  intros Hloop. by apply CustSyncIndex_loop_Ok in Hloop.
Qed.

(** A specification whose [expireAfterSeconds] is not an [int32] (a TTL kept
    as a double or a long, say) makes the cloner panic at that index, before
    any request for it reaches the destination. *)
Theorem CustSyncIndex_step_ttl_not_int32 dstColl indexresult value w :
  lookup_key indexresult "expireAfterSeconds" = Some value →
  (∀ z, value ≠ BInt32 z) →
  ∃ msg, CustSyncIndex_step dstColl indexresult w = (Panic msg, w).
Proof.
  intros Hlook Hnot.
  unfold CustSyncIndex_step, mbind, M_bind, bind, lift.
  assert (Hopt : ∃ msg, index_options indexresult = Panic msg).
  { unfold index_options, index_field, mbind, Res_bind. rewrite Hlook.
    destruct (lookup_key indexresult "name") as [v|];
      [destruct v; cbn [assert_string res_bind]; try by eexists | cbn [res_bind]].
    all: destruct (lookup_key indexresult "unique") as [v1|];
      [destruct v1; cbn [assert_bool res_bind]; try by eexists | cbn [res_bind]].
    all: destruct (lookup_key indexresult "sparse") as [v2|];
      [destruct v2; cbn [assert_bool res_bind]; try by eexists | cbn [res_bind]].
    all: destruct value; cbn [assert_int32 res_bind]; try by eexists.
    all: by destruct (Hnot z). }
  destruct Hopt as [msg ->]. by exists msg.
Qed.

End IndexCloner.

Lemma CustSyncIndex_success_witness :
  let src := source_with_indexes "d" "c"
               [[("key", BM [("_id", BInt32 1)]); ("name", BString "_id_")];
                [("key", BM [("x", BInt32 1)]); ("name", BString "x_1");
                 ("unique", BBool true)]] in
  let specs := indexes src (mkCollection "d" "c") in
  let requests := omap (clone_request (mkCollection "e" "f")) specs in
  dst_requests
    (trace (mkWorld (St:=Script) []
              [Src (ListIndexes (mkCollection "d" "c"));
               Dst (CreateOne (mkCollection "e" "f")
                      (mkIndexModel (BM [("_id", BInt32 1)])
                         (Some (mkIndexOptions None None (Some "_id_") None None
                                  None None None None))));
               Dst (CreateOne (mkCollection "e" "f")
                      (mkIndexModel (BM [("x", BInt32 1)])
                         (Some (mkIndexOptions None None (Some "x_1") None (Some true)
                                  None None None None))))]))
  = requests
  ∧ length requests = length specs
  ∧ serve requests ([] : Script) = ([], replicate (length specs) None).
Proof.
  apply (CustSyncIndex_success (St:=Script)
           (source_with_indexes "d" "c"
              [[("key", BM [("_id", BInt32 1)]); ("name", BString "_id_")];
               [("key", BM [("x", BInt32 1)]); ("name", BString "x_1");
                ("unique", BBool true)]])
           "d" "c" "e" "f" []).
  reflexivity.
Defined.

Lemma CustSyncIndex_step_ttl_not_int32_witness :
  ∃ msg,
    CustSyncIndex_step (St:=Script) (mkCollection "e" "f")
      [("key", BM [("at", BInt32 1)]); ("name", BString "at_1");
       ("expireAfterSeconds", BDouble 4660134898793709568)]
      (mkWorld [] [])
    = (Panic msg, mkWorld [] []).
Proof.
  apply (CustSyncIndex_step_ttl_not_int32 (St:=Script) (mkCollection "e" "f") _
           (BDouble 4660134898793709568)).
  - reflexivity.
  - discriminate.
Defined.

(** ** The batched writer under the replace policy *)

Section Replace.
Context {St : Type} `{!Driver St}.

Lemma fallback_replace_run coll ds :
  ∀ c w,
    let reqs := replace_request coll <$> ds in
    foldM (insertManyErrHandler coll true) (BD <$> ds) c w =
    (Ok (foldl (λ '(n, f) a, if is_nil a then (incr n, f) else (n, incr f))
               c (serve reqs (dst w)).2),
     mkWorld (serve reqs (dst w)).1 (trace w ++ map Dst reqs)).
Proof.
  induction ds as [|d ds IH]; intros [n f] w; cbn zeta.
  - cbn. rewrite app_nil_r. by destruct w.
  - rewrite !fmap_cons. cbn [foldM serve map].
    unfold mbind at 1, M_bind at 1, bind at 1.
    unfold insertManyErrHandler at 1.
    unfold mbind, M_bind, bind, lift, call. cbn [assert_D]. fold (replace_request coll d).
    destruct (exec (replace_request coll d) (dst w)) as [s1 a].
    destruct (serve (replace_request coll <$> ds) s1) as [s2 answers] eqn:Hserve.
    cbn [fst snd foldl].
    destruct a as [e|]; cbn [is_nil mret M_ret ret].
    + specialize (IH (n, incr f) (mkWorld s1 (trace w ++ [Dst (replace_request coll d)]))).
      cbn zeta in IH. cbn [dst trace] in IH. rewrite Hserve in IH. cbn [fst snd] in IH.
      unfold mbind, M_bind, bind, lift, call in IH. rewrite IH.
      by rewrite <- app_assoc.
    + specialize (IH (incr n, f) (mkWorld s1 (trace w ++ [Dst (replace_request coll d)]))).
      cbn zeta in IH. cbn [dst trace] in IH. rewrite Hserve in IH. cbn [fst snd] in IH.
      unfold mbind, M_bind, bind, lift, call in IH. rewrite IH.
      by rewrite <- app_assoc.
Qed.

Lemma tally_counts_by (ok : option string → bool) answers :
  ∀ n f,
    (0 ≤ n)%Z → (0 ≤ f)%Z →
    (n + f + Z.of_nat (length answers) < 2 ^ 63)%Z →
    foldl (λ '(n, f) a, if ok a then (incr n, f) else (n, incr f)) (n, f) answers
    = ((n + Z.of_nat (count_if ok answers))%Z,
       (f + Z.of_nat (count_if (λ a, negb (ok a)) answers))%Z).
Proof.
  induction answers as [|a answers IH]; intros n f Hn Hf Hlen.
  - cbn. f_equal; lia.
  - cbn [foldl count_if length] in *.
    destruct (ok a); cbn [negb].
    + rewrite incr_small by lia. rewrite IH by lia. f_equal; lia.
    + rewrite incr_small by lia. rewrite IH by lia. f_equal; lia.
Qed.

(** When the bulk insert fails under the replace policy, the fallback sends
    one replace-one per document, selected by the document's [_id], with
    upsert and without bypassing validation; a nil answer counts as a
    success and every error, a duplicate key included, as a failure. *)
Theorem CustInsertMany_replace_on_duplicate coll docs ds w :
  BD <$> ds ≡ₚ docs →
  (Z.of_nat (length docs) < 2 ^ 63)%Z →
  let bulk := InsertMany coll docs (mkInsertManyOptions (Some true) (Some false)) in
  is_nil (exec bulk (dst w)).2 = false →
  let reqs := replace_request coll <$> ds in
  let served := serve reqs (exec bulk (dst w)).1 in
  CustInsertMany coll docs true (BD <$> ds) w =
  (Ok (Z.of_nat (count_if is_nil served.2),
       Z.of_nat (count_if (λ a, negb (is_nil a)) served.2)),
   mkWorld served.1 (trace w ++ Dst bulk :: map Dst reqs)).
Proof.
  intros Hperm Hlen bulk Hfail reqs served.
  unfold CustInsertMany. unfold mbind at 1, M_bind at 1, bind at 1, call at 1.
  fold bulk. subst served. destruct (exec bulk (dst w)) as [s1 [e|]]; [|done].
  cbn [fst snd]. rewrite fallback_replace_run. cbn [dst trace].
  rewrite (tally_counts_by is_nil).
  - rewrite !Z.add_0_l. fold reqs. by rewrite <- app_assoc.
  - lia.
  - lia.
  - rewrite serve_length, length_fmap.
    rewrite <- (Permutation_length Hperm), length_fmap in Hlen. lia.
Qed.

(** Under the replace policy a value of the batch that is not an ordered
    document stops the fallback with a panic: the documents served before it
    have been replaced, nothing is sent for it or after it, and no counters
    are returned. *)
Theorem CustInsertMany_replace_not_a_document coll docs ds doc rest w :
  let bulk := InsertMany coll docs (mkInsertManyOptions (Some true) (Some false)) in
  is_nil (exec bulk (dst w)).2 = false →
  (∀ d, doc ≠ BD d) →
  let reqs := replace_request coll <$> ds in
  ∃ msg,
    CustInsertMany coll docs true ((BD <$> ds) ++ doc :: rest) w =
    (Panic msg,
     mkWorld (serve reqs (exec bulk (dst w)).1).1 (trace w ++ Dst bulk :: map Dst reqs)).
Proof.
  intros bulk Hfail Hnot reqs.
  unfold CustInsertMany. unfold mbind at 1, M_bind at 1, bind at 1, call at 1.
  fold bulk. destruct (exec bulk (dst w)) as [s1 [e|]]; [|done].
  cbn [fst snd]. rewrite foldM_app, fallback_replace_run. cbn [dst trace foldM].
  unfold mbind at 1, M_bind at 1, bind at 1. unfold insertManyErrHandler.
  destruct (foldl _ _ _) as [n f].
  unfold mbind, M_bind, bind, lift.
  destruct doc; cbn [assert_D]; try (eexists; by rewrite <- app_assoc).
  by destruct (Hnot d).
Qed.

End Replace.

Lemma CustInsertMany_replace_on_duplicate_witness :
  CustInsertMany (St:=Script) (mkCollection "d" "c")
    [BD [("_id", BInt32 1)]; BD [("_id", BInt32 2)]] true
    (BD <$> [[("_id", BInt32 1)]; [("_id", BInt32 2)]])
    (mkWorld [Some "E11000 duplicate key error collection: d.c index: _id_";
              None;
              Some "E11000 duplicate key error collection: d.c index: x_1"] [])
  = (Ok (1%Z, 1%Z),
     mkWorld []
       [Dst (InsertMany (mkCollection "d" "c")
               [BD [("_id", BInt32 1)]; BD [("_id", BInt32 2)]]
               (mkInsertManyOptions (Some true) (Some false)));
        Dst (ReplaceOne (mkCollection "d" "c") (BM [("_id", BInt32 1)])
               (BD [("_id", BInt32 1)]) (mkReplaceOptions (Some false) (Some true)));
        Dst (ReplaceOne (mkCollection "d" "c") (BM [("_id", BInt32 2)])
               (BD [("_id", BInt32 2)]) (mkReplaceOptions (Some false) (Some true)))]).
Proof.
  refine (CustInsertMany_replace_on_duplicate (St:=Script) (mkCollection "d" "c")
            [BD [("_id", BInt32 1)]; BD [("_id", BInt32 2)]]
            [[("_id", BInt32 1)]; [("_id", BInt32 2)]]
            (mkWorld [Some "E11000 duplicate key error collection: d.c index: _id_";
                      None;
                      Some "E11000 duplicate key error collection: d.c index: x_1"] [])
            _ _ _).
  - reflexivity.
  - reflexivity.
  - reflexivity.
Defined.

Lemma CustInsertMany_replace_not_a_document_witness :
  ∃ msg,
    CustInsertMany (St:=Script) (mkCollection "d" "c")
      [BD [("_id", BInt32 1)]; BM [("_id", BInt32 2)]] true
      ((BD <$> [[("_id", BInt32 1)]]) ++ BM [("_id", BInt32 2)] :: [])
      (mkWorld [Some "E11000 duplicate key error"; None] [])
    = (Panic msg,
       mkWorld []
         ([] ++ Dst (InsertMany (mkCollection "d" "c")
                      [BD [("_id", BInt32 1)]; BM [("_id", BInt32 2)]]
                      (mkInsertManyOptions (Some true) (Some false)))
             :: map Dst (replace_request (mkCollection "d" "c")
                           <$> [[("_id", BInt32 1)]]))).
Proof.
  refine (CustInsertMany_replace_not_a_document (St:=Script) (mkCollection "d" "c")
            [BD [("_id", BInt32 1)]; BM [("_id", BInt32 2)]]
            [[("_id", BInt32 1)]] (BM [("_id", BInt32 2)]) []
            (mkWorld [Some "E11000 duplicate key error"; None] []) _ _).
  - reflexivity.
  - discriminate.
Defined.

(** ** The snapshot copier *)

Section Copier.
Context {St : Type} `{!Driver St} (src : Source).

Lemma bulk_batches_app t1 t2 :
  bulk_batches (t1 ++ t2) = bulk_batches t1 ++ bulk_batches t2.
Proof. apply omap_app. Qed.

Lemma keeps_ret {A} (a : A) : keeps_batches (mret a : M St A).
Proof. by intros w. Qed.

Lemma keeps_lift {A} (r : Res A) : keeps_batches (lift r : M St A).
Proof. by intros w. Qed.

Lemma keeps_read r : keeps_batches (read r : M St unit).
Proof. intros w. unfold read. cbn. rewrite bulk_batches_app. cbn. by rewrite app_nil_r. Qed.

Lemma keeps_call r :
  (∀ c docs o, r ≠ InsertMany c docs o) → keeps_batches (call r).
Proof.
  intros Hr w. unfold call. destruct (exec r (dst w)) as [s' a]. cbn.
  rewrite bulk_batches_app. cbn. destruct r; try by rewrite app_nil_r.
  by destruct (Hr c docs o).
Qed.

Lemma keeps_bind {A B} (m : M St A) (k : A → M St B) :
  keeps_batches m → (∀ a, keeps_batches (k a)) → keeps_batches (m ≫= k).
Proof.
  intros Hm Hk w. unfold mbind, M_bind, bind.
  specialize (Hm w). destruct (m w) as [[a|e|e] w']; cbn in *; [|done..].
  by rewrite Hk.
Qed.

Lemma keeps_foldM {A B} (body : A → B → M St B) l :
  (∀ x acc, keeps_batches (body x acc)) → ∀ acc, keeps_batches (foldM body l acc).
Proof.
  intros Hbody. induction l as [|x l IH]; intros acc; cbn [foldM].
  - apply keeps_ret.
  - apply keeps_bind; [apply Hbody | apply IH].
Qed.

Lemma keeps_handler coll updateOverwrite doc counters :
  keeps_batches (insertManyErrHandler coll updateOverwrite doc counters).
Proof.
  unfold insertManyErrHandler. destruct counters as [n f].
  destruct updateOverwrite.
  - apply keeps_bind; [apply keeps_lift | intros d].
    apply keeps_bind; [by apply keeps_call | intros [e|]; apply keeps_ret].
  - apply keeps_bind; [by apply keeps_call | intros [e|]].
    + destruct (Contains e _); apply keeps_ret.
    + apply keeps_ret.
Qed.

Lemma keeps_CustSyncIndex a b c d :
  keeps_batches (CustSyncIndex (St:=St) src a b c d).
Proof.
  unfold CustSyncIndex.
  apply keeps_bind; [apply keeps_read | intros _].
  destruct (read_error src _); [apply keeps_lift|].
  apply keeps_foldM. intros ix _. unfold CustSyncIndex_step.
  apply keeps_bind; [apply keeps_lift | intros opt].
  apply keeps_bind; [by apply keeps_call | intros [e|]].
  - destruct (Name opt); apply keeps_lift.
  - apply keeps_ret.
Qed.

Lemma CustInsertMany_batches coll docs updateOverwrite order w :
  bulk_batches (trace (CustInsertMany coll docs updateOverwrite order w).2)
  = bulk_batches (trace w) ++ [docs].
Proof.
  unfold CustInsertMany. unfold mbind at 1, M_bind at 1, bind at 1, call at 1.
  destruct (exec _ (dst w)) as [s1 [e|]].
  - rewrite (keeps_foldM _ order (keeps_handler coll updateOverwrite)).
    cbn. by rewrite bulk_batches_app.
  - cbn. by rewrite bulk_batches_app.
Qed.

Lemma CustInsertMany_sum coll docs updateOverwrite order w n f w' :
  order ≡ₚ docs →
  (Z.of_nat (length docs) < 2 ^ 63)%Z →
  CustInsertMany coll docs updateOverwrite order w = (Ok (n, f), w') →
  (n + f = Z.of_nat (length docs))%Z ∧ (0 ≤ n)%Z ∧ (0 ≤ f)%Z.
Proof.
  intros Hperm Hlen. unfold CustInsertMany.
  unfold mbind at 1, M_bind at 1, bind at 1, call at 1.
  destruct (exec _ (dst w)) as [s1 [e|]].
  - intros Hfold. rewrite <- (Permutation_length Hperm) in Hlen |- *.
    assert (H0 : (0 ≤ 0)%Z) by lia.
    assert (Hb : (0 + 0 + Z.of_nat (length order) < 2 ^ 63)%Z) by lia.
    pose proof (fallback_counters _ _ _ _ _ _ _ _ _ H0 H0 Hb Hfold). lia.
  - do 2 rewrite (int64_small (Z.of_nat (length docs))) by lia.
    intros [= <- <- <-]. lia.
Qed.

Lemma flush_batch_Ok dstColl updateOverwrite sched docs insertedNum w n w' :
  (∀ b, sched b ≡ₚ b) →
  (0 ≤ insertedNum)%Z →
  (insertedNum + Z.of_nat (length docs) < 2 ^ 63)%Z →
  flush_batch dstColl updateOverwrite sched docs insertedNum w = (Ok n, w') →
  n = (insertedNum + Z.of_nat (length docs))%Z
  ∧ bulk_batches (trace w') = bulk_batches (trace w) ++ [docs].
Proof.
  intros Hsched Hins Hlen. unfold flush_batch.
  unfold mbind, M_bind, bind.
  pose proof (CustInsertMany_batches dstColl docs updateOverwrite (sched docs) w) as Hb.
  destruct (CustInsertMany _ _ _ _ w) as [[[sn fn]|e|e] w1] eqn:Hcall; [|done..].
  apply CustInsertMany_sum in Hcall as (Hsum & Hsn & Hfn); [|done|lia].
  cbn [fst snd] in *. destruct (Z.eqb_spec fn 0) as [->|Hne]; cbn [negb]; [|done].
  intros [= <- <-]. split; [|done]. rewrite int64_small; lia.
Qed.

Lemma length_concat_full (full : list (list bson)) :
  Forall (λ b, Z.of_nat (length b) = 10000%Z) full →
  Z.of_nat (length (concat full)) = (10000 * Z.of_nat (length full))%Z.
Proof.
  induction 1 as [|b full Hb _ IH]; [done|].
  cbn [concat length]. rewrite List.length_app. lia.
Qed.

Lemma copy_step_inv dstColl updateOverwrite sched item done docNum docs insertedNum w st' w' :
  (∀ b, sched b ≡ₚ b) →
  (Z.of_nat (length done) + 1 < 2 ^ 63)%Z →
  docNum = Z.of_nat (length done) →
  Forall (λ b, Z.of_nat (length b) = 10000%Z) (bulk_batches (trace w)) →
  concat (bulk_batches (trace w)) ++ docs = done →
  (Z.of_nat (length docs) < 10000)%Z →
  insertedNum = Z.of_nat (length (concat (bulk_batches (trace w)))) →
  copy_step dstColl updateOverwrite sched item (docNum, docs, insertedNum) w = (Ok st', w') →
  ∃ doc, item = inr doc
         ∧ st'.1.1 = Z.of_nat (length (done ++ [doc]))
         ∧ Forall (λ b, Z.of_nat (length b) = 10000%Z) (bulk_batches (trace w'))
         ∧ concat (bulk_batches (trace w')) ++ st'.1.2 = done ++ [doc]
         ∧ (Z.of_nat (length st'.1.2) < 10000)%Z
         ∧ st'.2 = Z.of_nat (length (concat (bulk_batches (trace w')))).
Proof.
  intros Hsched Hbound -> Hfull Hdone Hlen ->. unfold copy_step.
  destruct item as [e|doc]; [done|]. cbn zeta.
  pose proof (length_concat_full _ Hfull) as Hmult.
  assert (Hsplit : Z.of_nat (length done)
                   = (10000 * Z.of_nat (length (bulk_batches (trace w)))
                      + Z.of_nat (length docs))%Z).
  { rewrite <- Hdone, List.length_app. lia. }
  rewrite incr_small by lia.
  rewrite Z.rem_mod_nonneg by lia.
  destruct (Z.eqb_spec ((Z.of_nat (length done) + 1) `mod` 10000) 0) as [Hz|Hnz].
  - assert (Hfulllen : Z.of_nat (length (docs ++ [doc])) = 10000%Z).
    { rewrite List.length_app. cbn [length].
      Z.to_euclidean_division_equations. lia. }
    unfold mbind, M_bind, bind.
    destruct (flush_batch _ _ _ _ _ w) as [[n|e|e] w1] eqn:Hflush; [|done..].
    assert (Happ : length (docs ++ [doc]) = length docs + 1)
      by (rewrite List.length_app; cbn; lia).
    apply flush_batch_Ok in Hflush as [-> Hb]; [|done|lia|lia].
    intros [= <- <-]. exists doc. cbn [fst snd]. rewrite Hb.
    split; [done|]. split; [rewrite List.length_app; cbn; lia|].
    split; [apply Forall_app; split; [done | by constructor]|].
    split; [by rewrite concat_app, app_nil_r, <- Hdone; cbn; rewrite app_nil_r, app_assoc|].
    split; [cbn; lia|].
    rewrite concat_app, !List.length_app. cbn. rewrite app_nil_r. lia.
  - intros [= <- <-]. exists doc. cbn [fst snd].
    split; [done|]. split; [rewrite List.length_app; cbn; lia|].
    split; [done|]. split; [by rewrite <- Hdone, app_assoc|].
    split; [|done].
    rewrite List.length_app. cbn [length]. Z.to_euclidean_division_equations. lia.
Qed.

Lemma copy_loop_inv dstColl updateOverwrite sched items :
  ∀ done docNum docs insertedNum w st' w',
    (∀ b, sched b ≡ₚ b) →
    (Z.of_nat (length done + length items) < 2 ^ 63)%Z →
    docNum = Z.of_nat (length done) →
    Forall (λ b, Z.of_nat (length b) = 10000%Z) (bulk_batches (trace w)) →
    concat (bulk_batches (trace w)) ++ docs = done →
    (Z.of_nat (length docs) < 10000)%Z →
    insertedNum = Z.of_nat (length (concat (bulk_batches (trace w)))) →
    foldM (copy_step dstColl updateOverwrite sched) items (docNum, docs, insertedNum) w
    = (Ok st', w') →
    items = inr <$> decoded items
    ∧ Forall (λ b, Z.of_nat (length b) = 10000%Z) (bulk_batches (trace w'))
    ∧ concat (bulk_batches (trace w')) ++ st'.1.2 = done ++ decoded items
    ∧ (Z.of_nat (length st'.1.2) < 10000)%Z
    ∧ st'.2 = Z.of_nat (length (concat (bulk_batches (trace w')))).
Proof.
  induction items as [|item items IH];
    intros done docNum docs insertedNum w st' w' Hsched Hbound HdocNum Hfull Hdone Hlen Hins.
  - cbn. intros [= <- <-]. cbn [fst snd]. by rewrite app_nil_r.
  - cbn [foldM length] in *. unfold mbind at 1, M_bind at 1, bind at 1.
    destruct (copy_step _ _ _ item _ w) as [[[[docNum1 docs1] ins1]|e|e] w1] eqn:Hstep;
      [|done..].
    intros Hrest.
    eapply (copy_step_inv _ _ _ _ done) in Hstep as (doc & -> & H1 & H2 & H3 & H4 & H5);
      [| done | lia | done..].
    cbn [fst snd] in *.
    eapply (IH (done ++ [doc])) in Hrest as (Hitems & G2 & G3 & G4 & G5);
      [| done | | done..].
    + cbn [decoded omap list_omap fmap list_fmap].
      fold (decoded items). rewrite <- Hitems.
      split; [done|]. split; [done|]. split; [by rewrite G3, <- app_assoc | done].
    + rewrite List.length_app. cbn. lia.
Qed.

(** A run of the copier that returns has handed every document of the cursor
    to the bulk insert exactly once and in cursor order: in batches of
    exactly 10000 followed, when documents remain, by one shorter batch.  No
    item failed to decode, and the count it prints is the number of
    documents. *)
Theorem CustSyncCollection_batches srcDbName srcCollName dstDbName dstCollName
    updateOverwrite noIndex items sched s n w' :
  (∀ b, sched b ≡ₚ b) →
  (Z.of_nat (length items) < 2 ^ 63)%Z →
  run (CustSyncCollection src srcDbName srcCollName dstDbName dstCollName
         updateOverwrite noIndex (inr items) sched) s = (Ok n, w') →
  ∃ full residue,
    bulk_batches (trace w') = full ++ (if (0 <? length residue)%nat then [residue] else [])
    ∧ Forall (λ b, Z.of_nat (length b) = 10000%Z) full
    ∧ (Z.of_nat (length residue) < 10000)%Z
    ∧ concat full ++ residue = decoded items
    ∧ items = inr <$> decoded items
    ∧ n = Z.of_nat (length (decoded items)).
Proof.
  intros Hsched Hbound. unfold run, CustSyncCollection.
  unfold mbind at 1, M_bind at 1, bind at 1.
  assert (Hidx : keeps_batches
            (if negb noIndex
             then CustSyncIndex (St:=St) src srcDbName srcCollName dstDbName dstCollName
             else mret tt)).
  { destruct (negb noIndex); [apply keeps_CustSyncIndex | apply keeps_ret]. }
  specialize (Hidx (mkWorld s [])).
  match type of Hidx with
  | context [trace (?x).2] => destruct x as [[[]|e|e] w0]
  end; [|done..].
  cbn [snd trace bulk_batches omap list_omap] in Hidx.
  unfold mbind at 1, M_bind at 1, bind at 1.
  destruct (foldM _ items _ w0) as [[[[docNum docs] ins]|e|e] w1] eqn:Hloop; [|done..].
  eapply (copy_loop_inv _ _ _ _ []) in Hloop as (Hitems & H2 & H3 & H4 & H5);
    [| done | cbn; lia | done | by rewrite Hidx | by rewrite Hidx | cbn; lia
     | by rewrite Hidx].
  cbn [fst snd app] in *.
  pose proof (length_concat_full _ H2) as Hmult.
  assert (Hcount : length (decoded items)
                   = length (concat (bulk_batches (trace w1))) + length docs).
  { by rewrite <- H3, List.length_app. }
  assert (Hdec : length (decoded items) = length items).
  { rewrite Hitems at 2. by rewrite length_fmap. }
  destruct (Nat.ltb_spec 0 (length docs)) as [Hpos|Hzero].
  - intros Hflush. apply flush_batch_Ok in Hflush as [-> Hb]; [|done|lia|lia].
    exists (bulk_batches (trace w1)), docs. rewrite Hb.
    destruct (Nat.ltb_spec 0 (length docs)); [|lia].
    split_and!; try done. lia.
  - intros [= <- <-]. exists (bulk_batches (trace w1)), docs.
    destruct (Nat.ltb_spec 0 (length docs)); [lia|].
    rewrite app_nil_r. split_and!; try done. lia.
Qed.

End Copier.

(** Three documents: one batch, shorter than 10000, and the count 3. *)
Lemma CustSyncCollection_batches_witness :
  ∃ full residue,
    bulk_batches
      (trace (run (St:=Script)
                (CustSyncCollection (source_with "d" "c" []) "d" "c" "e" "f" false true
                   (inr [@inr string bson (BD [("_id", BInt32 1)]); inr (BD [("_id", BInt32 2)]);
                         inr (BD [("_id", BInt32 3)])]) (λ b, b)) []).2)
    = full ++ (if (0 <? length residue)%nat then [residue] else [])
    ∧ Forall (λ b, Z.of_nat (length b) = 10000%Z) full
    ∧ (Z.of_nat (length residue) < 10000)%Z
    ∧ concat full ++ residue
      = decoded [@inr string bson (BD [("_id", BInt32 1)]); inr (BD [("_id", BInt32 2)]);
                 inr (BD [("_id", BInt32 3)])]
    ∧ [@inr string bson (BD [("_id", BInt32 1)]); inr (BD [("_id", BInt32 2)]);
       inr (BD [("_id", BInt32 3)])]
      = inr <$> decoded [@inr string bson (BD [("_id", BInt32 1)]); inr (BD [("_id", BInt32 2)]);
                         inr (BD [("_id", BInt32 3)])]
    ∧ 3%Z = Z.of_nat (length (decoded [@inr string bson (BD [("_id", BInt32 1)]);
                                       inr (BD [("_id", BInt32 2)]);
                                       inr (BD [("_id", BInt32 3)])])).
Proof.
  refine (CustSyncCollection_batches (St:=Script) (source_with "d" "c" [])
            "d" "c" "e" "f" false true
            [@inr string bson (BD [("_id", BInt32 1)]); inr (BD [("_id", BInt32 2)]);
             inr (BD [("_id", BInt32 3)])] (λ b, b) [] 3%Z _ _ _ _).
  - intros b. reflexivity.
  - reflexivity.
  - reflexivity.
Defined.

(** ** What a run never does *)

Section Emits.
Context {St : Type} `{!Driver St} (P : Event → Prop).

Lemma emits_ret {A} (a : A) : emits P (mret a : M St A).
Proof. intros w. exists []. by rewrite app_nil_r. Qed.

Lemma emits_lift {A} (r : Res A) : emits P (lift r : M St A).
Proof. intros w. exists []. by rewrite app_nil_r. Qed.

Lemma emits_read r : P (Src r) → emits P (read r : M St unit).
Proof. intros HP w. exists [Src r]. split; [done | by constructor]. Qed.

Lemma emits_call r : P (Dst r) → emits P (call r).
Proof.
  intros HP w. exists [Dst r]. unfold call. destruct (exec r (dst w)).
  split; [done | by constructor].
Qed.

Lemma emits_bind {A B} (m : M St A) (k : A → M St B) :
  emits P m → (∀ a, emits P (k a)) → emits P (m ≫= k).
Proof.
  intros Hm Hk w. unfold mbind, M_bind, bind.
  destruct (Hm w) as (t & Ht & HP). destruct (m w) as [[a|e|e] w']; cbn [snd] in *.
  - destruct (Hk a w') as (t' & Ht' & HP'). exists (t ++ t').
    split; [by rewrite Ht', Ht, app_assoc | by apply Forall_app].
  - by exists t.
  - by exists t.
Qed.


Lemma emits_forMi {A} (body : nat → A → M St unit) l :
  (∀ k x, emits P (body k x)) → ∀ k, emits P (forMi body k l).
Proof.
  intros Hbody. induction l as [|x l IH]; intros k; cbn [forMi].
  - apply emits_ret.
  - apply emits_bind; [apply Hbody | intros _; apply IH].
Qed.

End Emits.

Ltac emits_step :=
  first
    [ apply emits_ret
    | apply emits_lift
    | apply emits_bind; [| intros ? ]
    | match goal with |- emits _ (if ?b then _ else _) => destruct b end
    | match goal with |- emits _ (match ?x with _ => _ end) => destruct x end ].

Section Never.
Context {St : Type} `{!Driver St} (src : Source).



(** Only a tailing replay (the source is [local.oplog.rs] and no end is
    set) asks the source for its replica-set status; any other replay never
    does. *)
Theorem CustReplayOplog_no_status_read startTS endTS srcOplogNamespace nsSlice nsnsMap s :
  String.eqb (if String.eqb srcOplogNamespace "" then local_oplog_rs
              else srcOplogNamespace) local_oplog_rs && is_zero endTS = false →
  Src ReplSetGetStatus
  ∉ trace (run (CustReplayOplog src startTS endTS srcOplogNamespace nsSlice nsnsMap) s).2.
Proof.
  intros Hmode.
  set (P := λ e : Event, e ≠ Src ReplSetGetStatus).
  assert (H : emits P (CustReplayOplog (St:=St) src startTS endTS srcOplogNamespace
                         nsSlice nsnsMap)).
  { unfold CustReplayOplog.
    destruct (negb _); [apply emits_lift|].
    do 2 (apply emits_bind; [apply emits_lift | intros ?]).
    apply emits_bind; [by apply emits_read | intros _].
    destruct (read_error src (FindOne _ _)); [apply emits_lift|].
    destruct (find_one _ _); [|apply emits_lift].
    apply emits_bind; [apply emits_lift | intros ts].
    destruct (negb _); [apply emits_lift|].
    apply emits_bind; [by apply emits_read | intros _].
    destruct (read_error src _); [apply emits_lift|].
    apply emits_forMi. intros k entry. unfold replay_step. rewrite Hmode.
    destruct (typed entry) as [oplog|]; [|apply emits_lift].
    apply emits_bind; [apply emits_ret | intros _].
    destruct (CustGetOplogNs oplog) as [db coll].
    destruct (CustContainsNs _ _); [|apply emits_ret].
    apply emits_bind; [apply emits_lift | intros nsStruct].
    unfold apply_op.
    repeat first
      [ emits_step
      | apply emits_call; discriminate ]. }
  destruct (H (mkWorld s [])) as (t & Ht & HP). unfold run. rewrite Ht. cbn.
  intros Hin. rewrite Forall_forall in HP. by apply (HP _ Hin).
Qed.

End Never.

Lemma CustReplayOplog_no_status_read_witness :
  Src ReplSetGetStatus
  ∉ trace (run (St:=Script)
             (CustReplayOplog
                (source_with "syncoplog" "oplog.rs"
                   [oplog_entry (primitive.mkTimestamp 100 1) "i" "d.c" BNull
                      (BD [("_id", BInt32 1)])])
                (primitive.mkTimestamp 100 1) (primitive.mkTimestamp 0 0)
                "syncoplog.oplog.rs" ["d.c"] ∅) []).2.
Proof.
  apply (CustReplayOplog_no_status_read (St:=Script)). reflexivity.
Defined.
